(** * kafka_avro_helper: wire codec, schema cache, topic router and
      consumer loop, embedded in Rocq.

    Source: [kafka_avro_helper/producer.py] and [kafka_avro_helper/consumer.py].

    The collaborators the package calls but does not implement (the Avro
    routines of fastavro and dataclasses_avroschema, the schema registry
    behind [get_schema], the class-name conversion [to_kebab_case], the
    handler itself and the broker transport of aiokafka) are parameters of
    the development, bundled in a record [collab].  Python exceptions are
    the constructors of [exn]; a Python function that may raise returns a
    [result]; the asynchronous code of [consumer.py] runs in a small
    state-and-exception monad [M] whose state holds the schema cache, the
    registry calls made so far, the single-partition log the consumer reads
    with its position and committed offset, and the trace of observable
    effects (handler calls, sends, commits, seeks, sleeps, log lines). *)

From Stdlib Require Import ZArith Lia Strings.Byte.
From stdpp Require Import base gmap list strings.

Open Scope Z_scope.

(** ** Python values *)

(** A Python [str] as its list of code points. *)
Definition pystr := list Z.

(** Code points of an ASCII literal. *)
Definition str_of (s : string) : pystr :=
  map (fun c => Z.of_nat (Ascii.nat_of_ascii c)) (String.list_ascii_of_string s).

Definition str_eqb (a b : pystr) : bool := bool_decide (a = b).

(** Python [bytes]. *)
Definition bytes := list byte.

Definition bval (b : byte) : Z := Z.of_N (Byte.to_N b).

Definition byte_of_Z (z : Z) : byte :=
  match Byte.of_N (Z.to_N (z mod 256)) with Some b => b | None => x00 end.

(** A Python [dict] whose insertion order matters: an association list;
    assigning an existing key replaces its value in place, a new key is
    appended (CPython dict semantics). *)
Definition dict := list (pystr * pystr).

Fixpoint dict_get (d : dict) (k : pystr) : option pystr :=
  match d with
  | [] => None
  | (k', v) :: d' => if str_eqb k k' then Some v else dict_get d' k
  end.

Fixpoint dict_set (d : dict) (k v : pystr) : dict :=
  match d with
  | [] => [(k, v)]
  | (k', v') :: d' => if str_eqb k k' then (k', v) :: d' else (k', v') :: dict_set d' k v
  end.

(** [{**d1, **d2}]: the entries of [d2] assigned, in order, over [d1]. *)
Definition dict_merge (d1 d2 : dict) : dict :=
  fold_left (fun acc kv => dict_set acc kv.1 kv.2) d2 d1.

(** ** Exceptions *)

Inductive exn :=
  | MagicByteError                 (* consumer.MagicByteError *)
  | UnicodeDecodeError
  | IndexError                     (* data[0] on b'' *)
  | KeyError                       (* value_annotation[record.topic] *)
  | StructError                    (* struct.pack / struct.unpack *)
  | TypeError                      (* issubclass on something it rejects *)
  | AttributeError                 (* None.decode *)
  | NotImplementedError            (* value_serializer *)
  | DuplicateTopic (topic : pystr) (* Exception(f"Duplicate topic {topic}") *)
  | NotKafkaMessage                (* Exception(f"Event ... is not a subclass ...") *)
  | OtherError (code : nat).       (* anything a collaborator may raise *)

Inductive result (A : Type) :=
  | Ok (a : A)
  | Err (e : exn).
Arguments Ok {A} a.
Arguments Err {A} e.

(** ** [bytes.decode('utf-8')] (strict: no overlong forms, no surrogates,
    nothing above U+10FFFF) *)

Definition in_range (lo hi x : Z) : bool := (lo <=? x) && (x <=? hi).

Definition cont (b : byte) : bool := in_range 0x80 0xBF (bval b).

Definition cbits (b : byte) : Z := Z.land (bval b) 0x3F.

Fixpoint utf8_decode (bs : bytes) : option pystr :=
  match bs with
  | [] => Some []
  | b0 :: r0 =>
      let v0 := bval b0 in
      if v0 <? 0x80 then
        match utf8_decode r0 with Some cs => Some (v0 :: cs) | None => None end
      else if in_range 0xC2 0xDF v0 then
        match r0 with
        | b1 :: r1 =>
            if cont b1 then
              match utf8_decode r1 with
              | Some cs => Some ((Z.land v0 0x1F) * 64 + cbits b1 :: cs)
              | None => None
              end
            else None
        | _ => None
        end
      else if in_range 0xE0 0xEF v0 then
        match r0 with
        | b1 :: b2 :: r2 =>
            let ok1 := if v0 =? 0xE0 then in_range 0xA0 0xBF (bval b1)
                       else if v0 =? 0xED then in_range 0x80 0x9F (bval b1)
                       else cont b1 in
            if ok1 && cont b2 then
              match utf8_decode r2 with
              | Some cs =>
                  Some ((Z.land v0 0x0F) * 4096 + cbits b1 * 64 + cbits b2 :: cs)
              | None => None
              end
            else None
        | _ => None
        end
      else if in_range 0xF0 0xF4 v0 then
        match r0 with
        | b1 :: b2 :: b3 :: r3 =>
            let ok1 := if v0 =? 0xF0 then in_range 0x90 0xBF (bval b1)
                       else if v0 =? 0xF4 then in_range 0x80 0x8F (bval b1)
                       else cont b1 in
            if ok1 && cont b2 && cont b3 then
              match utf8_decode r3 with
              | Some cs =>
                  Some ((Z.land v0 0x07) * 262144 + cbits b1 * 4096
                        + cbits b2 * 64 + cbits b3 :: cs)
              | None => None
              end
            else None
        | _ => None
        end
      else None
  end.

(** [b.decode('utf-8')] as a Python call. *)
Definition decode_utf8 (bs : bytes) : result pystr :=
  match utf8_decode bs with Some s => Ok s | None => Err UnicodeDecodeError end.

(** ** [struct.pack('>bI', b, i)] and [struct.unpack('>I', d)] *)

Definition be32 (i : Z) : bytes :=
  [byte_of_Z (Z.shiftr i 24); byte_of_Z (Z.shiftr i 16);
   byte_of_Z (Z.shiftr i 8); byte_of_Z i].

Definition pack_bI (b i : Z) : result bytes :=
  if in_range (-128) 127 b && in_range 0 (2 ^ 32 - 1) i
  then Ok (byte_of_Z b :: be32 i)
  else Err StructError.

Definition unpack_I (d : bytes) : result Z :=
  match d with
  | [b0; b1; b2; b3] =>
      Ok (bval b0 * 16777216 + bval b1 * 65536 + bval b2 * 256 + bval b3)
  | _ => Err StructError
  end.

(** ** [str.encode('utf-8')] (strict: a lone surrogate raises
    [UnicodeEncodeError]; a [str] holds no code point outside
    [0, 0x10FFFF]) *)

Definition utf8_encode_cp (c : Z) : option bytes :=
  if (c <? 0) || (0x10FFFF <? c) then None
  else if c <? 0x80 then Some [byte_of_Z c]
  else if c <? 0x800 then
    Some [byte_of_Z (0xC0 + Z.shiftr c 6); byte_of_Z (0x80 + Z.land c 0x3F)]
  else if in_range 0xD800 0xDFFF c then None
  else if c <? 0x10000 then
    Some [byte_of_Z (0xE0 + Z.shiftr c 12); byte_of_Z (0x80 + Z.land (Z.shiftr c 6) 0x3F);
          byte_of_Z (0x80 + Z.land c 0x3F)]
  else
    Some [byte_of_Z (0xF0 + Z.shiftr c 18); byte_of_Z (0x80 + Z.land (Z.shiftr c 12) 0x3F);
          byte_of_Z (0x80 + Z.land (Z.shiftr c 6) 0x3F); byte_of_Z (0x80 + Z.land c 0x3F)].

Fixpoint utf8_encode (s : pystr) : option bytes :=
  match s with
  | [] => Some []
  | c :: s' =>
      match utf8_encode_cp c with
      | Some b => match utf8_encode s' with Some bs => Some (b ++ bs) | None => None end
      | None => None
      end
  end.

(** ** producer.key_serializer *)

(** What [key_serializer] may receive: [None], [bytes], a [str], or any
    other object [o], whose [str(o)] is [py_str o]. *)
Inductive pykey (O : Type) :=
  | KeyNone
  | KeyBytes (b : bytes)
  | KeyStr (s : pystr)
  | KeyObj (o : O).
Arguments KeyNone {O}.
Arguments KeyBytes {O} b.
Arguments KeyStr {O} s.
Arguments KeyObj {O} o.

(** What it returns, or the [UnicodeEncodeError] [encode('utf-8')] raises. *)
Inductive key_result :=
  | KeyOk (b : option bytes)
  | KeyUnicodeEncodeError.

Definition encode_utf8 (s : pystr) : key_result :=
  match utf8_encode s with
  | Some b => KeyOk (Some b)
  | None => KeyUnicodeEncodeError
  end.

Definition key_serializer {O : Type} (py_str : O -> pystr) (value : pykey O) : key_result :=
  match value with
  | KeyNone => KeyOk None
  | KeyBytes b => KeyOk (Some b)
  | KeyStr s => encode_utf8 s
  | KeyObj o => encode_utf8 (py_str o)
  end.

(** ** Values handed to the producer and messages returned by handlers *)

Section Model.

Context {Schema Generic Obj Key Cls : Type}.

(** What [value_serializer] may receive: [None], [bytes], an [AvroModel]
    instance, or anything else. *)
Inductive pyval :=
  | PNone
  | PBytes (b : bytes)
  | PAvro (o : Obj)
  | POther.

(** [consumer.KafkaMessage]. *)
Record kafka_message := {
  m_topic : pystr;
  m_key : Key;
  m_value : pyval;
  m_headers : dict;
}.

(** An element of the list a handler returns: a [KafkaMessage] or any
    other object. *)
Inductive item :=
  | KM (m : kafka_message)
  | NotKM.

(** A record pulled from the consumer: [record.topic], [record.key],
    [record.value] and [record.headers] (a header value may be null). *)
Record kafka_record := {
  r_topic : pystr;
  r_key : option bytes;
  r_value : option bytes;
  r_headers : list (pystr * option bytes);
}.

(** The collaborators. *)
Record collab := {
  (* AvroModel.validate(): raises, or returns normally *)
  validate : Obj -> option exn;
  (* AvroModel.serialize(): the Avro binary body *)
  serialize : Obj -> bytes;
  (* value.get_metadata().schema_id *)
  schema_id_of : Obj -> Z;
  (* the class name, and issubclass(cls, AvroModel) *)
  cls_name : Cls -> pystr;
  cls_is_avro : Cls -> bool;
  (* validate.to_kebab_case *)
  to_kebab_case : pystr -> pystr;
  (* annotation.parse_obj *)
  parse_obj : Cls -> Generic -> result Obj;
  (* fastavro.schemaless_reader(BytesIO(body), schema) *)
  schemaless_reader : bytes -> Schema -> result Generic;
  (* validate.get_schema: the registry; the first argument is the number of
     registry calls made before, so that an answer may change over time *)
  get_schema : nat -> Z -> result Schema;
  (* the handler: callback(value=, key=, headers=, topic=) *)
  callback : option Obj -> option pystr -> dict -> pystr -> result (list item);
  (* the broker's answer to producer.send_and_wait: None is an
     acknowledgement, Some e the exception it raises *)
  broker_ack : pystr -> Key -> option bytes -> dict -> option exn;
}.

Variable E : collab.

(** ** producer.value_serializer *)

Definition MAGIC_BYTE : Z := 0.

Definition value_serializer (value : pyval) : result (option bytes) :=
  match value with
  | PNone => Ok None
  | PBytes b => Ok (Some b)
  | PAvro o =>
      match validate E o with
      | Some e => Err e
      | None =>
          let serialized_data := serialize E o in
          match pack_bI MAGIC_BYTE (schema_id_of E o) with
          | Ok prefix_bytes => Ok (Some (prefix_bytes ++ serialized_data))
          | Err e => Err e
          end
      end
  | POther => Err NotImplementedError
  end.

(** ** Observable effects *)

Inductive event :=
  | EvHandler (v : option Obj) (k : option pystr) (h : dict) (t : pystr)
  | EvSend (t : pystr) (k : Key) (payload : option bytes) (h : dict)
  | EvCommit
  | EvSeek                      (* consumer.seek_to_committed() *)
  | EvSleep (secs : nat)
  | EvWarn                      (* logging.warning *)
  | EvError                     (* logging.error *)
  | EvConsumerStart
  | EvSubscribe (topics : list pystr)
  | EvSubscribePattern (p : pystr)
  | EvProducerStart
  | EvNoBrokersWarning.

(** The state: the module-level [schemas] dict, the registry calls made
    (schema ids, in order), the partition the consumer reads with its
    position and its committed offset, the consumer's paused partitions,
    whether the producer singleton exists, and the trace. *)
Record St := {
  schemas : gmap Z Schema;
  reg_calls : list Z;
  log : list kafka_record;
  pos : nat;
  committed : nat;
  paused_parts : list nat;
  producer_made : bool;
  trace : list event;
}.

Definition set_schemas (c : gmap Z Schema) (s : St) : St :=
  {| schemas := c; reg_calls := reg_calls s; log := log s; pos := pos s;
     committed := committed s; paused_parts := paused_parts s;
     producer_made := producer_made s; trace := trace s |}.
Definition set_reg_calls (r : list Z) (s : St) : St :=
  {| schemas := schemas s; reg_calls := r; log := log s; pos := pos s;
     committed := committed s; paused_parts := paused_parts s;
     producer_made := producer_made s; trace := trace s |}.
Definition set_pos (p : nat) (s : St) : St :=
  {| schemas := schemas s; reg_calls := reg_calls s; log := log s; pos := p;
     committed := committed s; paused_parts := paused_parts s;
     producer_made := producer_made s; trace := trace s |}.
Definition set_committed (c : nat) (s : St) : St :=
  {| schemas := schemas s; reg_calls := reg_calls s; log := log s; pos := pos s;
     committed := c; paused_parts := paused_parts s;
     producer_made := producer_made s; trace := trace s |}.
Definition set_paused (p : list nat) (s : St) : St :=
  {| schemas := schemas s; reg_calls := reg_calls s; log := log s; pos := pos s;
     committed := committed s; paused_parts := p;
     producer_made := producer_made s; trace := trace s |}.
Definition set_producer_made (b : bool) (s : St) : St :=
  {| schemas := schemas s; reg_calls := reg_calls s; log := log s; pos := pos s;
     committed := committed s; paused_parts := paused_parts s;
     producer_made := b; trace := trace s |}.
Definition add_event (ev : event) (s : St) : St :=
  {| schemas := schemas s; reg_calls := reg_calls s; log := log s; pos := pos s;
     committed := committed s; paused_parts := paused_parts s;
     producer_made := producer_made s; trace := trace s ++ [ev] |}.

(** ** The state-and-exception monad *)

Definition M (A : Type) : Type := St -> result A * St.

Definition ret {A} (a : A) : M A := fun s => (Ok a, s).
Definition raise {A} (e : exn) : M A := fun s => (Err e, s).
Definition bind {A B} (m : M A) (f : A -> M B) : M B :=
  fun s => match m s with (Ok a, s') => f a s' | (Err e, s') => (Err e, s') end.
Definition lift {A} (r : result A) : M A :=
  fun s => match r with Ok a => (Ok a, s) | Err e => (Err e, s) end.
Definition get : M St := fun s => (Ok s, s).
Definition modify (f : St -> St) : M unit := fun s => (Ok tt, f s).
Definition emit (ev : event) : M unit := modify (add_event ev).
(** [try: m except e: h(e)] *)
Definition try_except {A} (m : M A) (h : exn -> M A) : M A :=
  fun s => match m s with (Ok a, s') => (Ok a, s') | (Err e, s') => h e s' end.

End Model.

Notation "x <- m ;;; k" := (bind m (fun x => k))
  (at level 100, m at level 99, right associativity).
Notation "m ;;; k" := (bind m (fun _ => k))
  (at level 100, right associativity).

Section Consumer.

Context {Schema Generic Obj Key Cls : Type}.
Variable E : @collab Schema Generic Obj Key Cls.

Local Abbreviation M := (@M Schema Obj Key).
Local Abbreviation event := (@event Obj Key).

(** ** consumer.value_deserializer *)

(** Lines 44-47: the [schemas] dict in front of [get_schema]. *)
Definition resolve_schema (schema_id : Z) : M Schema :=
  s <- get ;;;
  match schemas s !! schema_id with
  | Some schema => ret schema
  | None =>
      modify (set_reg_calls (reg_calls s ++ [schema_id])) ;;;
      schema <- lift (get_schema E (length (reg_calls s)) schema_id) ;;;
      modify (fun s' => set_schemas (<[schema_id := schema]> (schemas s')) s') ;;;
      ret schema
  end.

Definition value_deserializer (data : option bytes) (annotation : Cls)
  : M (option Obj) :=
  match data with
  | None => ret None
  | Some d =>
      magic_byte <- lift (match d with [] => Err IndexError | b :: _ => Ok (bval b) end) ;;;
      if negb (magic_byte =? 0) then raise MagicByteError else
      schema_id <- lift (unpack_I (firstn 4 (skipn 1 d))) ;;;
      schema <- resolve_schema schema_id ;;;
      decoded_message <- lift (schemaless_reader E (skipn 5 d) schema) ;;;
      value <- lift (parse_obj E annotation decoded_message) ;;;
      match validate E value with
      | Some e => raise e
      | None => ret (Some value)
      end
  end.

(** ** consumer.extract_value_annotation *)

(** A type in an annotation, by what [issubclass(_, AvroModel)] does with
    it: a class (the call answers whether it is an AvroModel); a builtin
    generic alias such as [list[int]] (a [types.GenericAlias]: the call
    accepts it and returns [False]); or anything else, on which the call
    raises [TypeError] (a [typing] generic such as [typing.List[int]], a
    string annotation, [None]). *)
Inductive atom :=
  | AClass (c : Cls)
  | AAlias
  | ANonClass.

(** A parameter annotation: a single type, or a [Union]/[|] of types
    (its [get_args]). *)
Inductive annotation :=
  | Single (a : atom)
  | UnionOf (args : list atom).

Definition pick_event (value_annotation : list (pystr * Cls)) (a : atom)
  : result (list (pystr * Cls)) :=
  match a with
  | ANonClass => Err TypeError
  | AAlias => Ok value_annotation
  | AClass c =>
      if cls_is_avro E c then
        let topic := to_kebab_case E (cls_name E c) in
        if existsb (str_eqb topic) (map fst value_annotation)
        then Err (DuplicateTopic topic)
        else Ok (value_annotation ++ [(topic, c)])
      else Ok value_annotation
  end.

Fixpoint pick_events (value_annotation : list (pystr * Cls)) (l : list atom)
  : result (list (pystr * Cls)) :=
  match l with
  | [] => Ok value_annotation
  | a :: l' =>
      match pick_event value_annotation a with
      | Ok va => pick_events va l'
      | Err e => Err e
      end
  end.

Fixpoint scan_params (value_annotation : list (pystr * Cls))
    (params : list (pystr * annotation)) : result (list (pystr * Cls)) :=
  match params with
  | [] => Ok value_annotation
  | (name, ann) :: params' =>
      let r := if str_eqb name (str_of "value") then
                 match ann with
                 | UnionOf args => pick_events value_annotation args
                 | Single a => pick_event value_annotation a
                 end
               else Ok value_annotation in
      match r with
      | Ok va => scan_params va params'
      | Err e => Err e
      end
  end.

(** [params] is [inspect.signature(callback).parameters]. *)
Definition extract_value_annotation (params : list (pystr * annotation))
  : result (list (pystr * Cls)) :=
  scan_params [] params.

Fixpoint lookup_topic (va : list (pystr * Cls)) (t : pystr) : option Cls :=
  match va with
  | [] => None
  | (t', c) :: va' => if str_eqb t t' then Some c else lookup_topic va' t
  end.

(** ** consumer.get_consumer and producer.get_producer *)

(** [brokers] is [environ.get("KAFKA_BROKERS")].  A fresh [AIOKafkaConsumer]
    has no paused partition; once started it reads from the group's
    committed offset. *)
Definition get_consumer (topics : list pystr) (brokers : option pystr) : M unit :=
  modify (set_paused []) ;;;
  match brokers with
  | None => emit EvNoBrokersWarning
  | Some _ =>
      emit EvConsumerStart ;;;
      modify (fun s => set_pos (committed s) s) ;;;
      match topics with
      | [] => emit (EvSubscribePattern (str_of ".*"))
      | _ :: _ => emit (EvSubscribe topics)
      end
  end.

Definition get_producer (brokers : option pystr) : M unit :=
  s <- get ;;;
  if producer_made s then ret tt else
  modify (set_producer_made true) ;;;
  match brokers with
  | Some (_ :: _) => emit EvProducerStart
  | _ => emit EvNoBrokersWarning
  end.

(** ** consumer.consume_messages *)

(** [producer.send_and_wait(topic=, key=, value=, headers=)]: aiokafka
    applies [value_serializer] to the value, hands the record to the broker
    and waits for its answer. *)
Definition send_and_wait (t : pystr) (k : Key) (v : pyval) (h : dict) : M unit :=
  payload <- lift (value_serializer E v) ;;;
  emit (EvSend t k payload h) ;;;
  match broker_ack E t k payload h with
  | None => ret tt
  | Some e => raise e
  end.

(** Lines 114-122. *)
Fixpoint publish_all (record_topic : pystr) (messages : list item) : M unit :=
  match messages with
  | [] => ret tt
  | NotKM :: _ => raise NotKafkaMessage
  | KM message :: messages' =>
      send_and_wait (m_topic message) (m_key message) (m_value message)
        (dict_merge [(str_of "processed_topic", record_topic)] (m_headers message)) ;;;
      publish_all record_topic messages'
  end.

(** [consumer.commit()]: the committed offset becomes the position. *)
Definition commit : M unit :=
  modify (fun s => set_committed (pos s) s) ;;;
  emit EvCommit.

(** [consumer.seek_to_committed()]. *)
Definition seek_to_committed : M unit :=
  modify (fun s => set_pos (committed s) s) ;;;
  emit EvSeek.

(** [record.key.decode('utf-8') if record.key else None]. *)
Definition decode_key (k : option bytes) : result (option pystr) :=
  match k with
  | Some ((_ :: _) as b) =>
      match decode_utf8 b with Ok s => Ok (Some s) | Err e => Err e end
  | _ => Ok None
  end.

(** [{k: v.decode('utf-8') for k, v in record.headers}]. *)
Fixpoint decode_headers (acc : dict) (hs : list (pystr * option bytes)) : result dict :=
  match hs with
  | [] => Ok acc
  | (k, v) :: hs' =>
      match v with
      | None => Err AttributeError
      | Some b =>
          match decode_utf8 b with
          | Ok s => decode_headers (dict_set acc k s) hs'
          | Err e => Err e
          end
      end
  end.

(** The body of the [try] block, lines 105-123. *)
Definition process_record (value_annotation : list (pystr * Cls)) (record : kafka_record)
  : M unit :=
  ValueAnotation <- lift (match lookup_topic value_annotation (r_topic record) with
                          | Some c => Ok c
                          | None => Err KeyError
                          end) ;;;
  key <- lift (decode_key (r_key record)) ;;;
  value <- value_deserializer (r_value record) ValueAnotation ;;;
  headers <- lift (decode_headers [] (r_headers record)) ;;;
  emit (EvHandler value key headers (r_topic record)) ;;;
  messages <- lift (callback E value key headers (r_topic record)) ;;;
  publish_all (r_topic record) messages ;;;
  commit.

(** [except (UnicodeDecodeError, MagicByteError)]. *)
Definition is_decode_warning (e : exn) : bool :=
  match e with
  | UnicodeDecodeError | MagicByteError => true
  | _ => false
  end.

(** One iteration of [async for record in consumer]: lines 104-130. *)
Definition loop_step (value_annotation : list (pystr * Cls)) (record : kafka_record)
  : M unit :=
  try_except (process_record value_annotation record)
    (fun e =>
       if is_decode_warning e then emit EvWarn
       else emit EvError ;;; seek_to_committed ;;; emit (EvSleep 5)).

(** The next record of the partition, if there is one. *)
Definition poll : M (option kafka_record) :=
  s <- get ;;;
  match nth_error (log s) (pos s) with
  | Some r => modify (set_pos (S (pos s))) ;;; ret (Some r)
  | None => ret None
  end.

(** The [async for] loop; [fuel] bounds the number of iterations. *)
Fixpoint consume_loop (fuel : nat) (value_annotation : list (pystr * Cls)) : M unit :=
  match fuel with
  | O => ret tt
  | S n =>
      r <- poll ;;;
      match r with
      | None => ret tt
      | Some record => loop_step value_annotation record ;;; consume_loop n value_annotation
      end
  end.

(** [consume_messages(callback)]: [params] is the handler's signature,
    [brokers] the [KAFKA_BROKERS] variable. *)
Definition consume_messages (fuel : nat) (params : list (pystr * annotation))
    (brokers : option pystr) : M unit :=
  value_annotation <- lift (extract_value_annotation params) ;;;
  let topics := map fst value_annotation in
  get_consumer topics brokers ;;;
  get_producer brokers ;;;
  s <- get ;;;
  match paused_parts s with
  | [] => ret tt          (* if not consumer.paused(): return consumer, producer *)
  | _ :: _ => consume_loop fuel value_annotation
  end.

(** The types a handler declares for its [value] parameter, in the order
    [extract_value_annotation] visits them, and the topics they derive. *)
Definition value_atoms (params : list (pystr * annotation)) : list atom :=
  concat (map (fun p => if str_eqb p.1 (str_of "value") then
                          match p.2 with UnionOf args => args | Single a => [a] end
                        else []) params).

Definition derived_topics (l : list atom) : list pystr :=
  flat_map (fun a => match a with
                     | AClass c => if cls_is_avro E c then [to_kebab_case E (cls_name E c)] else []
                     | AAlias | ANonClass => []
                     end) l.

End Consumer.

(** ** A concrete instance, for runs on explicit inputs *)

Module Demo.

(** A kebab-case conversion following the examples of the package's
    documentation ([UserFeedback] gives [user-feedback]). *)
Fixpoint kebab (first : bool) (s : pystr) : pystr :=
  match s with
  | [] => []
  | c :: s' =>
      if in_range 65 90 c
      then (if first then [c + 32] else [45; c + 32]) ++ kebab false s'
      else c :: kebab false s'
  end.

(** Classes are numbered; class 2 is not an AvroModel; classes 0 and 1 are
    both named [UserFeedback] (two modules may define it). *)
Definition name (c : nat) : pystr :=
  match c with
  | 0%nat | 1%nat => str_of "UserFeedback"
  | _ => str_of "Helper"
  end.

(** Schemas are [unit], decoded structures and model instances are [Z]
    (an instance is its schema id), keys are strings. *)
Definition env (cb : option Z -> option pystr -> dict -> pystr
                     -> result (list (@item Z pystr)))
  : @collab unit Z Z pystr nat :=
  {| validate := fun _ => None;
     serialize := fun _ => [x01; x02];
     schema_id_of := fun o => o;
     cls_name := name;
     cls_is_avro := fun c => Nat.leb c 1;
     to_kebab_case := kebab true;
     parse_obj := fun _ g => Ok g;
     schemaless_reader := fun body _ => Ok (Z.of_nat (length body));
     get_schema := fun _ id => if id =? 13 then Err (OtherError 503) else Ok tt;
     callback := cb;
     broker_ack := fun _ _ _ _ => None |}.

(** A handler that republishes what it receives to [processed-feedback]
    with the headers [hs]. *)
Definition forward (hs : dict) : option Z -> option pystr -> dict -> pystr
    -> result (list (@item Z pystr)) :=
  fun v _ _ _ =>
    Ok [KM {| m_topic := str_of "processed-feedback"; m_key := str_of "k";
              m_value := match v with Some o => PAvro o | None => PNone end;
              m_headers := hs |}].

(** A handler that raises [UnicodeDecodeError]. *)
Definition failing : option Z -> option pystr -> dict -> pystr
    -> result (list (@item Z pystr)) :=
  fun _ _ _ _ => Err UnicodeDecodeError.

Definition va : list (pystr * nat) := [(str_of "user-feedback", 0%nat)].

(** A framed record on [user-feedback] with key ["test"] and schema
    id 7. *)
Definition rec1 : kafka_record :=
  {| r_topic := str_of "user-feedback";
     r_key := Some [x74; x65; x73; x74];
     r_value := Some [x00; x00; x00; x00; x07; x05; x06];
     r_headers := [] |}.

Definition st (l : list kafka_record) (p c : nat) : @St unit Z pystr :=
  {| schemas := ∅; reg_calls := []; log := l; pos := p; committed := c;
     paused_parts := []; producer_made := false; trace := [] |}.

Definition s0 : @St unit Z pystr := st [rec1] 1 0.

(** What one iteration on [rec1] emits with the [forward []] handler. *)
Definition evs_ok : list (@event Z pystr) :=
  [EvHandler (Some 2) (Some [116; 101; 115; 116]) [] (str_of "user-feedback");
   EvSend (str_of "processed-feedback") (str_of "k")
     (Some [x00; x00; x00; x00; x02; x01; x02])
     [(str_of "processed_topic", str_of "user-feedback")];
   EvCommit].

(** A handler that sets its own [processed_topic] header. *)
Definition own_header : dict := [(str_of "processed_topic", str_of "elsewhere")].

(** A record with an empty (not null) value. *)
Definition rec_empty : kafka_record :=
  {| r_topic := str_of "user-feedback"; r_key := None; r_value := Some [];
     r_headers := [] |}.

(** A record on a topic no handler is bound to. *)
Definition rec_unbound : kafka_record :=
  {| r_topic := str_of "audit-log"; r_key := None;
     r_value := Some [x00; x00; x00; x00; x07]; r_headers := [] |}.

(** [async def handler(value: UserFeedback, key, headers, topic)]. *)
Definition params_one : list (pystr * @annotation nat) :=
  [(str_of "value", Single (AClass 0%nat)); (str_of "key", Single (AClass 2%nat))].

(** [value: list[int] | UserFeedback | other.UserFeedback]: [list[int]] is
    a builtin generic alias. *)
Definition params_alias : list (pystr * @annotation nat) :=
  [(str_of "value", UnionOf [AAlias; AClass 0%nat; AClass 1%nat])].

(** [value: typing.List[int] | UserFeedback | other.UserFeedback]. *)
Definition params_nonclass : list (pystr * @annotation nat) :=
  [(str_of "value", UnionOf [ANonClass; AClass 0%nat; AClass 1%nat])].

Definition E_fwd := env (forward []).
Definition E_hdr := env (forward own_header).
Definition E_fail := env failing.

(** The consumer about to read [rec_unbound], nothing committed yet. *)
Definition s_unb : @St unit Z pystr := st [rec_unbound] 0 0.

(** A handler that returns one message and then an object that is not a
    [KafkaMessage]. *)
Definition forward_then_other : option Z -> option pystr -> dict -> pystr
    -> result (list (@item Z pystr)) :=
  fun v _ _ _ =>
    Ok [KM {| m_topic := str_of "processed-feedback"; m_key := str_of "k";
              m_value := match v with Some o => PAvro o | None => PNone end;
              m_headers := [] |};
        NotKM].

Definition E_other := env forward_then_other.

(** The consumer about to read [rec1] with schema 7 already cached. *)
Definition s_cached : @St unit Z pystr :=
  {| schemas := <[7:=tt]> ∅; reg_calls := []; log := [rec1]; pos := 0; committed := 0;
     paused_parts := []; producer_made := false; trace := [] |}.

(** Headers [a: 1] and [a: 2] on one record. *)
Definition hs_dup : list (pystr * option bytes) :=
  [(str_of "a", Some [x31]); (str_of "a", Some [x32])].

(** The message [forward_then_other] builds from the value [2]. *)
Definition msg2 : @kafka_message Z pystr :=
  {| m_topic := str_of "processed-feedback"; m_key := str_of "k";
     m_value := PAvro 2; m_headers := [] |}.

End Demo.

(** * Properties *)

Section Proofs.

Context {Schema Generic Obj Key Cls : Type}.
Variable E : @collab Schema Generic Obj Key Cls.

Local Abbreviation M := (@M Schema Obj Key).
Local Abbreviation St := (@St Schema Obj Key).
Local Abbreviation event := (@event Obj Key).

Ltac munfold :=
  unfold try_except, emit, bind, lift, ret, raise, get, modify in *.

(** Components that leave the consumer and the trace alone. *)
Definition io_same (s s' : St) : Prop :=
  trace s' = trace s /\ pos s' = pos s /\ committed s' = committed s /\ log s' = log s.

(** The headers a republished message is sent with (line 121). *)
Definition hdr (t : pystr) (m : @kafka_message Obj Key) : dict :=
  dict_merge [(str_of "processed_topic", t)] (m_headers m).

(** [ev] is the send of one of [msgs]. *)
Definition sent_attempt (t : pystr) (msgs : list (@item Obj Key)) (ev : event) : Prop :=
  exists m payload, KM m ∈ msgs /\ ev = EvSend (m_topic m) (m_key m) payload (hdr t m).

(** [ev] is the send of [m], and the broker acknowledged it. *)
Definition sent_ok (t : pystr) (m : @kafka_message Obj Key) (ev : event) : Prop :=
  exists payload,
    value_serializer E (m_value m) = Ok payload /\
    broker_ack E (m_topic m) (m_key m) payload (hdr t m) = None /\
    ev = EvSend (m_topic m) (m_key m) payload (hdr t m).

(** The state after the [except Exception] branch (lines 127-130). *)
Definition after_retry (s1 : St) : St :=
  add_event (EvSleep 5) (add_event EvSeek (set_pos (committed s1) (add_event EvError s1))).

Abbreviation processed_topic := (str_of "processed_topic").

(** The schema cache only grows, and the registry is asked only for ids
    the cache did not hold at the start. *)
Definition cache_ext (s s' : St) : Prop :=
  (forall id sc, schemas s !! id = Some sc -> schemas s' !! id = Some sc) /\
  exists calls, reg_calls s' = reg_calls s ++ calls /\
    Forall (fun id => schemas s !! id = None) calls.

(** The value of the last header named [k], decoded. *)
Definition last_header (hs : list (pystr * option bytes)) (k : pystr) : option pystr :=
  match find (fun p => str_eqb p.1 k) (rev hs) with
  | Some (_, Some b) => utf8_decode b
  | _ => None
  end.

Lemma io_same_refl s : io_same s s.
Proof. repeat split. Qed.

Lemma io_same_trans s1 s2 s3 : io_same s1 s2 -> io_same s2 s3 -> io_same s1 s3.
Proof. intros (?&?&?&?) (?&?&?&?); repeat split; congruence. Qed.

Lemma resolve_schema_io id s : io_same s (snd (resolve_schema E id s)).
Proof.
  unfold resolve_schema; munfold; simpl.
  destruct (schemas s !! id); simpl; [apply io_same_refl|].
  destruct (get_schema E _ id); simpl; repeat split.
Qed.

Lemma value_deserializer_io d c s : io_same s (snd (value_deserializer E d c s)).
Proof.
  unfold value_deserializer; munfold.
  destruct d as [d|]; [|apply io_same_refl].
  destruct d as [|b d]; [apply io_same_refl|]. simpl.
  destruct (negb (bval b =? 0)); [apply io_same_refl|].
  destruct (unpack_I _); [|apply io_same_refl].
  pose proof (resolve_schema_io a s) as Hr.
  destruct (resolve_schema E a s) as [[sc|e] s1]; [|exact Hr].
  destruct (schemaless_reader E _ sc); [|exact Hr].
  destruct (parse_obj E c _); [|exact Hr].
  destruct (validate E _); exact Hr.
Qed.

Lemma sent_attempt_cons t x msgs ev :
  sent_attempt t msgs ev -> sent_attempt t (x :: msgs) ev.
Proof. intros (m & p & Hm & ->). exists m, p. split; [set_solver | reflexivity]. Qed.

Lemma publish_all_spec t msgs s :
  let '(res, s') := publish_all E t msgs s in
  exists sends,
    trace s' = trace s ++ sends /\ pos s' = pos s /\ committed s' = committed s /\
    log s' = log s /\ Forall (sent_attempt t msgs) sends /\
    (forall u, res = Ok u -> exists ms, msgs = map KM ms /\ Forall2 (sent_ok t) ms sends).
Proof.
  revert s. induction msgs as [|[m|] msgs IH]; intros s; simpl.
  - exists []. rewrite app_nil_r. repeat split; auto.
    intros _ _. exists []. split; constructor.
  - unfold send_and_wait; munfold.
    destruct (value_serializer E (m_value m)) as [payload|e] eqn:Hser.
    2:{ exists []. rewrite app_nil_r. repeat split; auto. discriminate. }
    destruct (broker_ack E (m_topic m) (m_key m) payload (hdr t m)) as [e|] eqn:Hack;
      unfold hdr in Hack; rewrite Hack; fold (hdr t m).
    + exists [EvSend (m_topic m) (m_key m) payload (hdr t m)]. simpl.
      repeat split; auto.
      * constructor; [|constructor]. exists m, payload. split; [set_solver | reflexivity].
      * discriminate.
    + specialize (IH (add_event (EvSend (m_topic m) (m_key m) payload (hdr t m)) s)).
      destruct (publish_all E t msgs _) as [res s'].
      destruct IH as (sends & Htr & Hp & Hc & Hl & Hall & Hok).
      cbv beta iota.
      exists (EvSend (m_topic m) (m_key m) payload (hdr t m) :: sends).
      simpl in *. rewrite Htr, <- app_assoc. repeat split; auto.
      * constructor.
        -- exists m, payload. split; [set_solver | reflexivity].
        -- eapply Forall_impl; [exact Hall|]. intros ev. apply sent_attempt_cons.
      * intros u Hu. destruct (Hok u Hu) as (ms & -> & H2).
        exists (m :: ms). split; [reflexivity|]. constructor; [|exact H2].
        exists payload. repeat split; auto.
  - exists []. rewrite app_nil_r. munfold. repeat split; auto. discriminate.
Qed.

(** What one record's processing does (the [try] block): it touches only
    the trace and the committed offset; on success the trace is the handler
    call, one acknowledged send per returned message, and the commit; on
    failure nothing is committed. *)
Lemma process_record_spec va r s :
  let '(res, s') := process_record E va r s in
  exists evs,
    trace s' = trace s ++ evs /\ pos s' = pos s /\ log s' = log s /\
    (forall e, res = Err e -> (EvCommit ∉ evs) /\ committed s' = committed s) /\
    (forall u, res = Ok u ->
       exists v k h ms sends,
         callback E v k h (r_topic r) = Ok (map KM ms) /\
         Forall2 (sent_ok (r_topic r)) ms sends /\
         evs = EvHandler v k h (r_topic r) :: sends ++ [EvCommit] /\
         committed s' = pos s) /\
    (forall t k p h, EvSend t k p h ∈ evs ->
       exists v key hs items,
         callback E v key hs (r_topic r) = Ok items /\
         sent_attempt (r_topic r) items (EvSend t k p h)).
Proof.
  unfold process_record; munfold.
  destruct (lookup_topic va (r_topic r)) as [c|];
    [|exists []; rewrite app_nil_r; repeat split; set_solver].
  destruct (decode_key (r_key r)) as [key|e];
    [|exists []; rewrite app_nil_r; repeat split; set_solver].
  pose proof (value_deserializer_io (r_value r) c s) as Hio.
  destruct (value_deserializer E (r_value r) c s) as [[v|e] s1];
    destruct Hio as (Ht1 & Hp1 & Hc1 & Hl1); simpl in Ht1, Hp1, Hc1, Hl1;
    [|exists []; rewrite app_nil_r; repeat split; try congruence; set_solver].
  destruct (decode_headers [] (r_headers r)) as [hs|e];
    [|exists []; rewrite app_nil_r; repeat split; try congruence; set_solver].
  destruct (callback E v key hs (r_topic r)) as [items|e] eqn:Hcb.
  2:{ exists [EvHandler v key hs (r_topic r)]. simpl. rewrite Ht1.
      repeat split; try congruence; set_solver. }
  pose proof (publish_all_spec (r_topic r) items
                (add_event (EvHandler v key hs (r_topic r)) s1)) as Hpub.
  destruct (publish_all E (r_topic r) items _) as [[u|e] s2];
    destruct Hpub as (sends & Ht2 & Hp2 & Hc2 & Hl2 & Hall & Hok); simpl in *.
  - destruct (Hok u eq_refl) as (ms & -> & Hms).
    exists (EvHandler v key hs (r_topic r) :: sends ++ [EvCommit]). simpl.
    rewrite Ht2, Ht1, <- !app_assoc. repeat split; try congruence.
    + intros u' _. exists v, key, hs, ms, sends. repeat split; auto. congruence.
    + intros t k p h Hin. exists v, key, hs, (map KM ms). split; [exact Hcb|].
      rewrite elem_of_cons, elem_of_app, list_elem_of_singleton in Hin.
      destruct Hin as [Hin|[Hin|Hin]]; try discriminate.
      rewrite Forall_forall in Hall. apply Hall. exact Hin.
  - exists (EvHandler v key hs (r_topic r) :: sends). simpl.
    rewrite Ht2, Ht1, <- app_assoc. repeat split; try congruence.
    + intros Hin. rewrite elem_of_cons in Hin. destruct Hin as [Hin|Hin]; [discriminate|].
      rewrite Forall_forall in Hall. destruct (Hall _ Hin) as (? & ? & _ & ?). discriminate.
    + intros t k p h Hin. exists v, key, hs, items. split; [exact Hcb|].
      rewrite elem_of_cons in Hin. destruct Hin as [Hin|Hin]; [discriminate|].
      rewrite Forall_forall in Hall. apply Hall. exact Hin.
Qed.

Lemma loop_step_err va r s e s1 :
  process_record E va r s = (Err e, s1) ->
  loop_step E va r s =
    (Ok tt, if is_decode_warning e then add_event EvWarn s1 else after_retry s1).
Proof.
  intros H. unfold loop_step, seek_to_committed, after_retry; munfold.
  rewrite H. destruct (is_decode_warning e); reflexivity.
Qed.

Lemma loop_step_ok va r s u s1 :
  process_record E va r s = (Ok u, s1) -> loop_step E va r s = (Ok u, s1).
Proof. intros H. unfold loop_step; munfold. rewrite H. reflexivity. Qed.

Lemma loop_step_result va r s : fst (loop_step E va r s) = Ok tt.
Proof.
  destruct (process_record E va r s) as [[[]|e] s1] eqn:H.
  - rewrite (loop_step_ok _ _ _ _ _ H). reflexivity.
  - rewrite (loop_step_err _ _ _ _ _ H). reflexivity.
Qed.

(** One iteration keeps the log, and moves the committed offset to the
    position at most; the position stays or goes back to the committed
    offset. *)
Lemma loop_step_state va r s :
  let s' := snd (loop_step E va r s) in
  log s' = log s /\ (committed s' = committed s \/ committed s' = pos s) /\
  (pos s' = pos s \/ pos s' = committed s').
Proof.
  pose proof (process_record_spec va r s) as Hs.
  destruct (process_record E va r s) as [[u|e] s1] eqn:H;
    destruct Hs as (evs & Ht & Hp & Hl & Herr & Hok & _).
  - rewrite (loop_step_ok _ _ _ _ _ H). simpl.
    destruct (Hok u eq_refl) as (? & ? & ? & ? & ? & _ & _ & _ & Hc). auto.
  - rewrite (loop_step_err _ _ _ _ _ H).
    destruct (Herr e eq_refl) as [_ Hc].
    destruct (is_decode_warning e); simpl; auto.
Qed.

(** A record whose topic has no binding fails at the binding lookup. *)
Lemma unbound_process va r s :
  lookup_topic va (r_topic r) = None -> process_record E va r s = (Err KeyError, s).
Proof. intros H. unfold process_record; munfold. rewrite H. reflexivity. Qed.

Lemma consume_loop_result fuel va s : fst (consume_loop E fuel va s) = Ok tt.
Proof.
  revert s. induction fuel as [|n IH]; intros s; [reflexivity|].
  cbn [consume_loop]. unfold poll; munfold.
  destruct (nth_error (log s) (pos s)) as [r|]; [|reflexivity].
  pose proof (loop_step_result va r (set_pos (S (pos s)) s)) as Hr.
  destruct (loop_step E va r _) as [[[]|e] s2]; [apply IH|discriminate].
Qed.

(** The events of one iteration: those of the [try] block, then the
    warning, or the error line, the seek and the sleep. *)
Lemma loop_step_new_events va r s res s' evs :
  loop_step E va r s = (res, s') -> trace s' = trace s ++ evs ->
  exists pres s1 evs0,
    process_record E va r s = (pres, s1) /\ trace s1 = trace s ++ evs0 /\
    ((exists u, pres = Ok u /\ evs = evs0) \/
     (exists e, pres = Err e /\
        (evs = evs0 ++ [EvWarn] \/ evs = evs0 ++ [EvError; EvSeek; EvSleep 5]))).
Proof.
  intros Hstep Htr.
  pose proof (process_record_spec va r s) as Hs.
  destruct (process_record E va r s) as [pres s1] eqn:H.
  destruct Hs as (evs0 & Ht & _).
  exists pres, s1, evs0. split; [reflexivity|]. split; [exact Ht|].
  destruct pres as [u|e].
  - rewrite (loop_step_ok _ _ _ _ _ H) in Hstep. injection Hstep as <- <-.
    left. exists u. split; [reflexivity|].
    rewrite Ht in Htr. symmetry. eapply app_inv_head. exact Htr.
  - rewrite (loop_step_err _ _ _ _ _ H) in Hstep. injection Hstep as <- <-.
    right. exists e. split; [reflexivity|].
    destruct (is_decode_warning e); simpl in Htr; rewrite Ht, <- app_assoc in Htr.
    + left. symmetry. eapply app_inv_head. exact Htr.
    + right. rewrite <- !app_assoc in Htr. simpl in Htr.
      symmetry. eapply app_inv_head. exact Htr.
Qed.

(** ** C1 *)

(** Claim C1: in one iteration of the consumer loop, the offset is committed
    only as the very last effect, after the handler call and after one send
    per message the handler returned, each acknowledged by the broker; a
    failed send (or a returned object that is not a [KafkaMessage]) leaves
    no commit behind. *)
Theorem commit_only_after_all_publishes va r s res s' evs :
  loop_step E va r s = (res, s') ->
  trace s' = trace s ++ evs ->
  EvCommit ∈ evs ->
  exists v k h ms sends,
    callback E v k h (r_topic r) = Ok (map KM ms) /\
    Forall2 (sent_ok (r_topic r)) ms sends /\
    evs = EvHandler v k h (r_topic r) :: sends ++ [EvCommit].
Proof.
  intros Hstep Htr Hin.
  destruct (loop_step_new_events va r s res s' evs Hstep Htr)
    as (pres & s1 & evs0 & Hp & Ht & [(u & -> & ->)|(e & -> & Hev)]).
  - pose proof (process_record_spec va r s) as Hs. rewrite Hp in Hs.
    destruct Hs as (evs1 & Ht1 & _ & _ & _ & Hok & _).
    rewrite Ht in Ht1. apply app_inv_head in Ht1. subst evs1.
    destruct (Hok u eq_refl) as (v & k & h & ms & sends & Hcb & Hms & Hevs & _).
    exists v, k, h, ms, sends. auto.
  - pose proof (process_record_spec va r s) as Hs. rewrite Hp in Hs.
    destruct Hs as (evs1 & Ht1 & _ & _ & Herr & _).
    rewrite Ht in Ht1. apply app_inv_head in Ht1. subst evs1.
    destruct (Herr e eq_refl) as [Hno _].
    exfalso. destruct Hev as [->| ->]; rewrite elem_of_app in Hin;
      destruct Hin as [Hin|Hin]; [exact (Hno Hin)| set_solver | exact (Hno Hin) | set_solver].
Qed.

(** ** Python dict assignment and [{**d1, **d2}] *)

Lemma str_eqb_true a b : str_eqb a b = true <-> a = b.
Proof. unfold str_eqb. apply bool_decide_eq_true. Qed.

Lemma str_eqb_refl a : str_eqb a a = true.
Proof. apply str_eqb_true. reflexivity. Qed.

Lemma str_eqb_ne a b : a <> b -> str_eqb a b = false.
Proof. intros H. unfold str_eqb. apply bool_decide_eq_false. exact H. Qed.

Lemma dict_get_set_eq d k v : dict_get (dict_set d k v) k = Some v.
Proof.
  induction d as [|[k' v'] d IH]; simpl; [rewrite str_eqb_refl; reflexivity|].
  destruct (str_eqb k k') eqn:Hk; simpl; rewrite Hk; [reflexivity|exact IH].
Qed.

Lemma dict_get_set_ne d k k' v : k <> k' -> dict_get (dict_set d k' v) k = dict_get d k.
Proof.
  intros Hne. induction d as [|[k0 v0] d IH]; simpl.
  - rewrite (str_eqb_ne _ _ Hne). reflexivity.
  - destruct (str_eqb k' k0) eqn:H0; simpl.
    + apply str_eqb_true in H0. subst k0. rewrite (str_eqb_ne _ _ Hne). reflexivity.
    + destruct (str_eqb k k0); [reflexivity|exact IH].
Qed.

Lemma dict_merge_notin d1 d2 k :
  k ∉ map fst d2 -> dict_get (dict_merge d1 d2) k = dict_get d1 k.
Proof.
  unfold dict_merge. revert d1.
  induction d2 as [|[k0 v0] d2 IH]; intros d1 Hk; simpl; [reflexivity|].
  simpl in Hk. rewrite not_elem_of_cons in Hk. destruct Hk as [Hne Hk].
  rewrite IH by exact Hk. apply dict_get_set_ne. exact Hne.
Qed.

Lemma dict_merge_in d1 d2 k :
  k ∈ map fst d2 -> exists v, (k, v) ∈ d2 /\ dict_get (dict_merge d1 d2) k = Some v.
Proof.
  unfold dict_merge. revert d1.
  induction d2 as [|[k0 v0] d2 IH]; intros d1 Hk; simpl in Hk; [set_solver|].
  simpl. destruct (decide (k ∈ map fst d2)) as [Hin|Hout].
  - destruct (IH (dict_set d1 k0 v0) Hin) as (v & Hv & Hget).
    exists v. split; [set_solver | exact Hget].
  - rewrite elem_of_cons in Hk. destruct Hk as [->|Hk]; [|contradiction].
    exists v0. split; [set_solver|].
    change (dict_get (dict_merge (dict_set d1 k0 v0) d2) k0 = Some v0).
    rewrite dict_merge_notin by exact Hout. apply dict_get_set_eq.
Qed.

(** ** C4 *)

(** Claim C4, as the code has it: every message the loop republishes is one
    the handler returned, sent with the headers
    [{"processed_topic": record.topic, **message.headers}]; so
    [processed_topic] names the inbound topic when the handler's headers
    have no [processed_topic] key, and carries the handler's own value when
    they have one. *)
Theorem republished_headers_merge va r s res s' evs t k p h :
  loop_step E va r s = (res, s') ->
  trace s' = trace s ++ evs ->
  EvSend t k p h ∈ evs ->
  exists v key hs items m,
    callback E v key hs (r_topic r) = Ok items /\ KM m ∈ items /\
    t = m_topic m /\ k = m_key m /\
    h = dict_merge [(processed_topic, r_topic r)] (m_headers m) /\
    (processed_topic ∉ map fst (m_headers m) ->
       dict_get h processed_topic = Some (r_topic r)) /\
    (processed_topic ∈ map fst (m_headers m) ->
       exists v', (processed_topic, v') ∈ m_headers m /\ dict_get h processed_topic = Some v').
Proof.
  intros Hstep Htr Hin.
  destruct (loop_step_new_events va r s res s' evs Hstep Htr)
    as (pres & s1 & evs0 & Hp & Ht & Hcase).
  assert (Hin0 : EvSend t k p h ∈ evs0).
  { destruct Hcase as [(u & _ & ->)|(e & _ & [->| ->])]; [exact Hin| |];
      rewrite elem_of_app in Hin; destruct Hin as [Hin|Hin]; [exact Hin|set_solver|exact Hin|set_solver]. }
  pose proof (process_record_spec va r s) as Hs. rewrite Hp in Hs.
  destruct Hs as (evs1 & Ht1 & _ & _ & _ & _ & Hsend).
  rewrite Ht in Ht1. apply app_inv_head in Ht1. subst evs1.
  destruct (Hsend t k p h Hin0) as (v & key & hs & items & Hcb & m & payload & Hm & Heq).
  injection Heq as -> -> -> ->.
  exists v, key, hs, items, m. repeat split; auto.
  - intros Hout. unfold hdr. rewrite dict_merge_notin by exact Hout.
    exact (dict_get_set_eq [] processed_topic (r_topic r)).
  - intros Hk. apply dict_merge_in. exact Hk.
Qed.

(** ** C8 *)

(** Claim C8, as the code has it: an iteration never raises and the loop
    never stops on an error; when the [try] block raises [e] (which leaves
    the position and the committed offset as they were and commits
    nothing), an [e] that is a [UnicodeDecodeError] or a [MagicByteError],
    wherever it was raised, is logged as a warning and nothing else
    happens; any other [e] is logged as an error, the position goes back to
    the committed offset, and the loop sleeps 5 seconds. *)
Theorem loop_failure_policy va r s :
  fst (loop_step E va r s) = Ok tt /\
  (forall fuel, fst (consume_loop E fuel va s) = Ok tt) /\
  (forall e s1,
     process_record E va r s = (Err e, s1) ->
     pos s1 = pos s /\ committed s1 = committed s /\
     (exists evs, trace s1 = trace s ++ evs /\ EvCommit ∉ evs) /\
     snd (loop_step E va r s) =
       (if is_decode_warning e then add_event EvWarn s1 else after_retry s1)).
Proof.
  split; [apply loop_step_result|]. split; [intros; apply consume_loop_result|].
  intros e s1 H.
  pose proof (process_record_spec va r s) as Hs. rewrite H in Hs.
  destruct Hs as (evs & Ht & Hp & _ & Herr & _).
  destruct (Herr e eq_refl) as [Hno Hc].
  repeat split; auto.
  - exists evs. auto.
  - rewrite (loop_step_err _ _ _ _ _ H). reflexivity.
Qed.

(** ** C9 *)

(** Claim C9: [value_deserializer(b'')] raises [IndexError] at [data[0]],
    before the magic-byte check and without touching the schema cache;
    [IndexError] is not caught by the warning branch, so a record on a
    bound topic with a decodable key and an empty value is logged as an
    error, the position goes back to the committed offset and the loop
    sleeps. *)
Theorem empty_payload_takes_retry_path va r s c k :
  lookup_topic va (r_topic r) = Some c ->
  decode_key (r_key r) = Ok k ->
  r_value r = Some [] ->
  value_deserializer E (Some []) c s = (Err IndexError, s) /\
  is_decode_warning IndexError = false /\
  loop_step E va r s = (Ok tt, after_retry s).
Proof.
  intros Hc Hk Hv.
  assert (Hvd : value_deserializer E (Some []) c s = (Err IndexError, s)) by reflexivity.
  split; [exact Hvd|]. split; [reflexivity|].
  assert (Hp : process_record E va r s = (Err IndexError, s)).
  { unfold process_record; munfold. rewrite Hc, Hk, Hv, Hvd. reflexivity. }
  rewrite (loop_step_err _ _ _ _ _ Hp). reflexivity.
Qed.

(** ** C10 *)

(** Claim C10: a record at offset [i] whose topic has no binding fails the
    lookup [value_annotation[record.topic]] with [KeyError], which takes the
    error branch (error line, seek to the committed offset, sleep).  From
    any state that has not passed offset [i], the loop never commits past
    [i] nor moves past it, however many iterations it runs; and once [i] is
    the committed offset and the position, every iteration delivers that
    same record again and ends back at [i]. *)
Theorem unbound_topic_retried_forever va i r fuel s :
  nth_error (log s) i = Some r ->
  lookup_topic va (r_topic r) = None ->
  (pos s <= i)%nat ->
  (committed s <= i)%nat ->
  loop_step E va r s = (Ok tt, after_retry s) /\
  (pos (snd (consume_loop E fuel va s)) <= i /\
   committed (snd (consume_loop E fuel va s)) <= i)%nat /\
  (pos s = i -> committed s = i ->
     pos (snd (consume_loop E fuel va s)) = i /\
     committed (snd (consume_loop E fuel va s)) = i /\
     log (snd (consume_loop E fuel va s)) = log s /\
     trace (snd (consume_loop E fuel va s))
       = trace s ++ concat (repeat [EvError; EvSeek; EvSleep 5] fuel)).
Proof.
  intros Hnth Hun Hp Hc.
  assert (Hstep : forall s0, loop_step E va r s0 = (Ok tt, after_retry s0)).
  { intros s0. rewrite (loop_step_err _ _ _ _ _ (unbound_process va r s0 Hun)). reflexivity. }
  split; [apply Hstep|]. split.
  - revert s Hnth Hp Hc. induction fuel as [|n IH]; intros s Hnth Hp Hc; [simpl; lia|].
    cbn [consume_loop]. unfold poll; munfold.
    destruct (nth_error (log s) (pos s)) as [r0|] eqn:Hn; [|simpl; lia].
    pose proof (loop_step_result va r0 (set_pos (S (pos s)) s)) as Hres.
    pose proof (loop_step_state va r0 (set_pos (S (pos s)) s)) as Hst.
    destruct (decide (pos s = i)) as [Heq|Hne].
    + rewrite Heq, Hnth in Hn. injection Hn as <-. rewrite Heq, Hstep.
      apply IH; simpl; auto.
    + destruct (loop_step E va r0 _) as [res s2]. simpl in Hres, Hst. subst res.
      destruct Hst as (Hl & Hc2 & Hp2).
      apply IH; [rewrite Hl; exact Hnth| |]; lia.
  - intros Hpi Hci. clear Hp Hc.
    revert s Hnth Hpi Hci. induction fuel as [|n IH]; intros s Hnth Hpi Hci.
    + simpl. rewrite app_nil_r. auto.
    + cbn [consume_loop]. unfold poll; munfold.
      rewrite Hpi, Hnth, Hstep. cbv beta iota.
      assert (IH' := IH (after_retry (set_pos (S i) s))).
      destruct IH' as (H1 & H2 & H3 & H4); [simpl; congruence..|].
      split; [exact H1|]. split; [exact H2|]. split; [rewrite H3; reflexivity|].
      rewrite H4. simpl. rewrite <- !app_assoc. reflexivity.
Qed.

(** ** C2 *)

Lemma bval_byte_of_Z z : bval (byte_of_Z z) = z mod 256.
Proof.
  pose proof (Z.mod_pos_bound z 256) as Hb.
  unfold byte_of_Z. destruct (Byte.of_N (Z.to_N (z mod 256))) as [b|] eqn:H.
  - apply Byte.to_of_N in H. unfold bval. rewrite H. rewrite Z2N.id; lia.
  - apply Byte.of_N_None_iff in H. lia.
Qed.

(** [be32] is the 4-byte big-endian unsigned form: [struct.unpack('>I')]
    reads the id back. *)
Lemma unpack_be32 id : 0 <= id < 2 ^ 32 -> unpack_I (be32 id) = Ok id.
Proof.
  intros Hid. unfold be32, unpack_I. rewrite !bval_byte_of_Z.
  rewrite !Z.shiftr_div_pow2 by lia. f_equal.
  change (2 ^ 24) with (256 * 256 * 256). change (2 ^ 16) with (256 * 256).
  change (2 ^ 8) with 256. change (2 ^ 32) with 4294967296 in Hid.
  rewrite <- !Z.div_div by lia.
  set (x1 := id / 256). set (x2 := x1 / 256). set (x3 := x2 / 256).
  assert (H3 : 0 <= x3 < 256) by (subst x1 x2 x3; rewrite !Z.div_div by lia;
                                  split; [apply Z.div_pos | apply Z.div_lt_upper_bound]; lia).
  rewrite (Z.mod_small x3 256) by exact H3.
  pose proof (Z.div_mod id 256 ltac:(lia)). pose proof (Z.div_mod x1 256 ltac:(lia)).
  pose proof (Z.div_mod x2 256 ltac:(lia)).
  fold x1 in H. fold x2 in H0. fold x3 in H1. lia.
Qed.

(** Claim C2, as the code has it: [None] encodes to [None], [bytes] pass
    through, an object of another type raises [NotImplementedError]; an
    [AvroModel] is validated first (a failed validation raises) and, when
    its schema id fits in an unsigned 32-bit integer, is encoded as the
    byte 0x00, the id in 4 big-endian bytes and the Avro body; an id outside
    [0, 2^32) makes [struct.pack] raise. *)
Theorem value_serializer_contract :
  value_serializer E PNone = Ok None /\
  (forall b, value_serializer E (PBytes b) = Ok (Some b)) /\
  value_serializer E POther = Err NotImplementedError /\
  (forall o,
     value_serializer E (PAvro o) =
       match validate E o with
       | Some e => Err e
       | None =>
           if in_range 0 (2 ^ 32 - 1) (schema_id_of E o)
           then Ok (Some (x00 :: be32 (schema_id_of E o) ++ serialize E o))
           else Err StructError
       end) /\
  (forall id, 0 <= id < 2 ^ 32 -> unpack_I (be32 id) = Ok id).
Proof.
  repeat split; [|apply unpack_be32].
  intros o. simpl. destruct (validate E o); [reflexivity|].
  unfold pack_bI. simpl. destruct (in_range 0 (2 ^ 32 - 1) (schema_id_of E o)); reflexivity.
Qed.

(** ** C3 *)

(** Claim C3: a non-empty payload whose first byte is not 0 makes
    [value_deserializer] raise [MagicByteError] with the state untouched: no
    lookup result is used, nothing is cached, the registry is not called;
    and [MagicByteError] is one the loop treats as a warning. *)
Theorem bad_magic_byte_no_resolution b rest c s :
  bval b <> 0 ->
  value_deserializer E (Some (b :: rest)) c s = (Err MagicByteError, s) /\
  is_decode_warning MagicByteError = true.
Proof.
  intros Hb. split; [|reflexivity].
  unfold value_deserializer; munfold.
  replace (bval b =? 0) with false by (symmetry; apply Z.eqb_neq; exact Hb).
  reflexivity.
Qed.

(** ** C5 *)

(** Claim C5: after a successful resolution of [id] the next one is a cache
    hit that returns the same schema without calling the registry (so two
    resolutions call it at most once); a failed fetch inserts nothing, and
    the next resolution of [id] calls the registry again. *)
Theorem schema_cache_fetch_once id s :
  (forall sc s1,
     resolve_schema E id s = (Ok sc, s1) ->
     resolve_schema E id s1 = (Ok sc, s1) /\
     (reg_calls s1 = reg_calls s \/ reg_calls s1 = reg_calls s ++ [id]) /\
     schemas s1 !! id = Some sc) /\
  (forall e s1,
     resolve_schema E id s = (Err e, s1) ->
     schemas s1 = schemas s /\ schemas s1 !! id = None /\
     reg_calls s1 = reg_calls s ++ [id] /\
     reg_calls (snd (resolve_schema E id s1)) = reg_calls s1 ++ [id]).
Proof.
  unfold resolve_schema; munfold. simpl.
  destruct (schemas s !! id) as [sc0|] eqn:Hc; simpl.
  - split; [|intros; discriminate].
    intros sc s1 H. injection H as <- <-. rewrite Hc. auto.
  - destruct (get_schema E (length (reg_calls s)) id) as [sc0|e0]; simpl.
    + split; [|intros; discriminate].
      intros sc s1 H. injection H as <- <-. simpl.
      rewrite lookup_insert_eq. auto.
    + split; [intros; discriminate|].
      intros e s1 H. injection H as <- <-. simpl. rewrite Hc.
      repeat split; auto.
      destruct (get_schema E _ id); reflexivity.
Qed.

(** ** C6 *)

(** The body of the [async for] loop does what the documentation says: the
    handler is called with the decoded value, the UTF-8 key, the decoded
    headers and the topic. *)
Lemma process_record_calls_handler va r s c k v s1 h :
  lookup_topic va (r_topic r) = Some c ->
  decode_key (r_key r) = Ok k ->
  value_deserializer E (r_value r) c s = (Ok v, s1) ->
  decode_headers [] (r_headers r) = Ok h ->
  exists evs,
    trace (snd (process_record E va r s)) = trace s1 ++ EvHandler v k h (r_topic r) :: evs.
Proof.
  intros Hc Hk Hv Hh.
  unfold process_record, commit; munfold. rewrite Hc, Hk, Hv, Hh.
  destruct (callback E v k h (r_topic r)) as [items|e]; simpl.
  2:{ exists []. reflexivity. }
  pose proof (publish_all_spec (r_topic r) items (add_event (EvHandler v k h (r_topic r)) s1))
    as Hpub.
  destruct (publish_all E (r_topic r) items _) as [[u|e] s2];
    destruct Hpub as (sends & Ht & _); simpl in Ht |- *.
  - exists (sends ++ [EvCommit]). rewrite Ht, <- !app_assoc. reflexivity.
  - exists sends. rewrite Ht, <- app_assoc. reflexivity.
Qed.

(** Claim C6 (defect): with [KAFKA_BROKERS] set, [consume_messages] starts
    and subscribes the consumer, then returns at
    [if not consumer.paused(): return consumer, producer], since nothing
    ever pauses a partition: no record is pulled, the position stays at the
    committed offset, and the handler is never called. *)
Theorem consume_messages_returns_before_loop fuel params b s va :
  extract_value_annotation E params = Ok va ->
  fst (consume_messages E fuel params (Some b) s) = Ok tt /\
  pos (snd (consume_messages E fuel params (Some b) s)) = committed s /\
  committed (snd (consume_messages E fuel params (Some b) s)) = committed s /\
  exists evs,
    trace (snd (consume_messages E fuel params (Some b) s)) = trace s ++ evs /\
    forall v k h t, EvHandler v k h t ∉ evs.
Proof.
  intros Hx. unfold consume_messages, get_consumer, get_producer; munfold.
  rewrite Hx. simpl.
  destruct (map fst va) as [|t0 ts]; simpl;
    destruct (producer_made s); simpl; destruct b; simpl;
    repeat split; auto;
    eexists; (split; [rewrite <- !app_assoc; reflexivity|]); set_solver.
Qed.

(** ** C7 *)

Lemma pick_events_app va l1 l2 :
  pick_events E va (l1 ++ l2) =
    match pick_events E va l1 with Ok va' => pick_events E va' l2 | Err e => Err e end.
Proof.
  revert va. induction l1 as [|a l1 IH]; intros va; simpl; [reflexivity|].
  destruct (pick_event E va a); [apply IH|reflexivity].
Qed.

Lemma scan_params_atoms va params :
  scan_params E va params = pick_events E va (value_atoms params).
Proof.
  revert va. induction params as [|[name ann] params IH]; intros va; [reflexivity|].
  unfold value_atoms. simpl. fold (value_atoms params).
  rewrite pick_events_app.
  destruct (str_eqb name (str_of "value")); simpl.
  - destruct ann as [a|args]; simpl.
    + destruct (pick_event E va a); [apply IH|reflexivity].
    + destruct (pick_events E va args); [apply IH|reflexivity].
  - apply IH.
Qed.

Lemma pick_events_ok va l va' :
  NoDup (map fst va) -> pick_events E va l = Ok va' ->
  map fst va' = map fst va ++ derived_topics E l /\ NoDup (map fst va').
Proof.
  revert va. induction l as [|a l IH]; intros va Hnd H; simpl in H.
  - injection H as <-. simpl. rewrite app_nil_r. auto.
  - destruct a as [c| |]; simpl in H;
      [|destruct (IH _ Hnd H) as [Hm Hn]; split; [rewrite Hm; reflexivity|exact Hn]|discriminate].
    destruct (cls_is_avro E c) eqn:Hav.
    + destruct (existsb (str_eqb (to_kebab_case E (cls_name E c))) (map fst va)) eqn:Hex;
        [discriminate|].
      assert (Hnd' : NoDup (map fst (va ++ [(to_kebab_case E (cls_name E c), c)]))).
      { rewrite map_app. simpl. apply NoDup_app. repeat split; auto.
        - intros x Hx Hy. rewrite list_elem_of_singleton in Hy. subst x.
          assert (Hin : existsb (str_eqb (to_kebab_case E (cls_name E c))) (map fst va) = true).
          { apply existsb_exists. exists (to_kebab_case E (cls_name E c)).
            split; [apply list_elem_of_In; exact Hx | apply str_eqb_refl]. }
          congruence.
        - apply NoDup_singleton. }
      destruct (IH _ Hnd' H) as [Hm Hn]. split; [|exact Hn].
      rewrite Hm, map_app, <- app_assoc. simpl. rewrite Hav. reflexivity.
    + destruct (IH _ Hnd H) as [Hm Hn]. split; [|exact Hn].
      rewrite Hm. simpl. rewrite Hav. reflexivity.
Qed.

Lemma pick_events_err va l e :
  pick_events E va l = Err e ->
  (e = TypeError /\ ANonClass ∈ l) \/ exists t, e = DuplicateTopic t.
Proof.
  revert va. induction l as [|a l IH]; intros va H; simpl in H; [discriminate|].
  destruct a as [c| |]; simpl in H.
  - destruct (cls_is_avro E c).
    + destruct (existsb _ _); [injection H as <-; right; eauto|].
      destruct (IH _ H) as [[-> Hin]|Hd]; [left; split; [reflexivity|set_solver]|right; exact Hd].
    + destruct (IH _ H) as [[-> Hin]|Hd]; [left; split; [reflexivity|set_solver]|right; exact Hd].
  - destruct (IH _ H) as [[-> Hin]|Hd]; [left; split; [reflexivity|set_solver]|right; exact Hd].
  - injection H as <-. left. split; [reflexivity|set_solver].
Qed.

Lemma existsb_str_false t l : t ∉ l -> existsb (str_eqb t) l = false.
Proof.
  induction l as [|a l IH]; intros H; simpl; [reflexivity|].
  rewrite not_elem_of_cons in H. destruct H as [Hne H].
  rewrite str_eqb_ne by exact Hne. simpl. apply IH. exact H.
Qed.

Lemma existsb_str_true t l : t ∈ l -> existsb (str_eqb t) l = true.
Proof.
  intros H. apply existsb_exists. exists t.
  split; [apply list_elem_of_In; exact H|apply str_eqb_refl].
Qed.

Lemma pick_events_succeeds va l :
  ANonClass ∉ l -> NoDup (map fst va ++ derived_topics E l) ->
  exists va', pick_events E va l = Ok va'.
Proof.
  revert va. induction l as [|a l IH]; intros va Hn Hnd; simpl; [eauto|].
  rewrite not_elem_of_cons in Hn. destruct Hn as [Hn0 Hn].
  destruct a as [c| |]; [|simpl; apply IH; [exact Hn|exact Hnd]|exfalso; apply Hn0; reflexivity].
  unfold derived_topics in Hnd. simpl in Hnd. fold (derived_topics E l) in Hnd.
  destruct (cls_is_avro E c) eqn:Hav.
  - simpl in Hnd. apply NoDup_app in Hnd as Hparts. destruct Hparts as (_ & Hdis & _).
    unfold pick_event. rewrite Hav. rewrite existsb_str_false.
    + apply IH; [exact Hn|]. rewrite map_app, <- app_assoc. exact Hnd.
    + intros Hin. apply (Hdis _ Hin). left.
  - unfold pick_event. rewrite Hav. apply IH; [exact Hn|exact Hnd].
Qed.

(** Registration up to the first alternative that makes it fail: a prefix
    with no [TypeError] alternative and no repeated topic is registered,
    and its topics are the ones bound when the next alternative is met. *)
Lemma pick_events_prefix l1 l2 :
  ANonClass ∉ l1 -> NoDup (derived_topics E l1) ->
  exists va1, map fst va1 = derived_topics E l1 /\
    pick_events E [] (l1 ++ l2) = pick_events E va1 l2.
Proof.
  intros Hn Hnd.
  destruct (pick_events_succeeds [] l1 Hn Hnd) as [va1 H1].
  destruct (pick_events_ok [] l1 va1 (NoDup_nil_2) H1) as [Hm _].
  exists va1. split; [exact Hm|]. rewrite pick_events_app, H1. reflexivity.
Qed.

(** Claim C7, as the code has it: when two schema-bearing alternatives of
    the handler's [value] type derive the same topic, registration raises
    before the consumer is created or subscribed ([consume_messages] leaves
    the state as it was). Which error is raised is decided by the first
    alternative at which registration stops: an alternative [issubclass]
    raises on ([typing.List[int]], a string annotation, [None]) met while the
    topics so far are distinct gives [TypeError]; a schema-bearing class met
    under the same conditions whose topic is already bound gives [Duplicate
    topic] for that topic. So the error is always [Duplicate topic] when no
    alternative is of the first kind; a builtin alias such as [list[int]] is
    skipped and changes nothing. *)
Theorem duplicate_topic_before_subscription fuel params brokers s :
  ~ NoDup (derived_topics E (value_atoms params)) ->
  exists e,
    extract_value_annotation E params = Err e /\
    consume_messages E fuel params brokers s = (Err e, s) /\
    (e = TypeError \/ exists t, e = DuplicateTopic t) /\
    (ANonClass ∉ value_atoms params -> exists t, e = DuplicateTopic t) /\
    (forall l1 l2, value_atoms params = l1 ++ ANonClass :: l2 ->
       ANonClass ∉ l1 -> NoDup (derived_topics E l1) -> e = TypeError) /\
    (forall l1 c l2, value_atoms params = l1 ++ AClass c :: l2 ->
       ANonClass ∉ l1 -> NoDup (derived_topics E l1) ->
       cls_is_avro E c = true -> to_kebab_case E (cls_name E c) ∈ derived_topics E l1 ->
       e = DuplicateTopic (to_kebab_case E (cls_name E c))).
Proof.
  intros Hcol.
  unfold extract_value_annotation. rewrite scan_params_atoms.
  destruct (pick_events E [] (value_atoms params)) as [va|e] eqn:H.
  - exfalso. destruct (pick_events_ok [] _ va (NoDup_nil_2) H) as [Hm Hn].
    simpl in Hm. rewrite Hm in Hn. exact (Hcol Hn).
  - exists e. split; [reflexivity|]. split.
    { unfold consume_messages; munfold. unfold extract_value_annotation.
      rewrite scan_params_atoms, H. reflexivity. }
    split; [|split; [|split]].
    + destruct (pick_events_err _ _ _ H) as [[-> _]|Hd]; [left; reflexivity|right; exact Hd].
    + destruct (pick_events_err _ _ _ H) as [[-> Hin]|Hd]; [intros Hout; contradiction|].
      intros _. exact Hd.
    + intros l1 l2 Hl Hn Hnd. rewrite Hl in H.
      destruct (pick_events_prefix l1 (ANonClass :: l2) Hn Hnd) as (va1 & _ & Hp).
      rewrite Hp in H. simpl in H. injection H as <-. reflexivity.
    + intros l1 c l2 Hl Hn Hnd Hav Hin. rewrite Hl in H.
      destruct (pick_events_prefix l1 (AClass c :: l2) Hn Hnd) as (va1 & Hm & Hp).
      rewrite Hp in H. cbn [pick_events] in H. unfold pick_event in H.
      rewrite Hav, existsb_str_true in H by (rewrite Hm; exact Hin).
      injection H as <-. reflexivity.
Qed.

End Proofs.


(** * Further properties of the package's code *)

Section Extras.

Context {Schema Generic Obj Key Cls : Type}.
Variable E : @collab Schema Generic Obj Key Cls.

Local Abbreviation M := (@M Schema Obj Key).
Local Abbreviation St := (@St Schema Obj Key).
Local Abbreviation event := (@event Obj Key).

Ltac munfold :=
  unfold try_except, emit, bind, lift, ret, raise, get, modify in *.

(** Rewrites every comparison of the goal that [lia] decides. *)
Ltac zbool :=
  repeat match goal with
  | |- context [?a <? ?b] =>
      first [ rewrite (proj2 (Z.ltb_lt a b)) by lia | rewrite (proj2 (Z.ltb_ge a b)) by lia ]
  | |- context [?a <=? ?b] =>
      first [ rewrite (proj2 (Z.leb_le a b)) by lia | rewrite (proj2 (Z.leb_gt a b)) by lia ]
  | |- context [?a =? ?b] =>
      first [ rewrite (proj2 (Z.eqb_eq a b)) by lia | rewrite (proj2 (Z.eqb_neq a b)) by lia ]
  end; cbn [andb orb negb].

(** ** UTF-8: [decode] undoes [encode] *)

Lemma land_low k n x : 0 <= n -> 0 <= x < 2 ^ n -> Z.land (k * 2 ^ n + x) (Z.ones n) = x.
Proof.
  intros Hn Hx. rewrite Z.land_ones by lia. rewrite Z.add_comm, Z.mod_add by lia.
  apply Z.mod_small. lia.
Qed.

Lemma dec1 a rest :
  0 <= a <= 127 ->
  utf8_decode (byte_of_Z a :: rest) =
    match utf8_decode rest with Some cs => Some (a :: cs) | None => None end.
Proof.
  intros Ha. cbn [utf8_decode]. rewrite bval_byte_of_Z, Z.mod_small by lia.
  zbool. reflexivity.
Qed.

Lemma dec2 a r rest :
  2 <= a <= 31 -> 0 <= r <= 63 ->
  utf8_decode (byte_of_Z (0xC0 + a) :: byte_of_Z (0x80 + r) :: rest) =
    match utf8_decode rest with Some cs => Some (64 * a + r :: cs) | None => None end.
Proof.
  intros Ha Hr. cbn [utf8_decode]. unfold cont, cbits, in_range.
  rewrite !bval_byte_of_Z, !Z.mod_small by lia.
  replace (0xC0 + a) with (6 * 2 ^ 5 + a) by reflexivity.
  replace (0x80 + r) with (2 * 2 ^ 6 + r) by reflexivity.
  change 31 with (Z.ones 5). change 63 with (Z.ones 6).
  rewrite !land_low by (simpl; lia). simpl Z.pow.
  zbool. destruct (utf8_decode rest); [f_equal; f_equal; lia|reflexivity].
Qed.

Lemma dec3 a b r rest :
  0 <= a <= 15 -> 0 <= b <= 63 -> 0 <= r <= 63 ->
  (a = 0 -> 32 <= b) -> (a = 13 -> b <= 31) ->
  utf8_decode (byte_of_Z (0xE0 + a) :: byte_of_Z (0x80 + b) :: byte_of_Z (0x80 + r) :: rest) =
    match utf8_decode rest with Some cs => Some (4096 * a + 64 * b + r :: cs) | None => None end.
Proof.
  intros Ha Hb Hr H0 H13. cbn [utf8_decode]. unfold cont, cbits, in_range.
  rewrite !bval_byte_of_Z, !Z.mod_small by lia.
  replace (0xE0 + a) with (14 * 2 ^ 4 + a) by reflexivity.
  replace (0x80 + b) with (2 * 2 ^ 6 + b) by reflexivity.
  replace (0x80 + r) with (2 * 2 ^ 6 + r) by reflexivity.
  change 15 with (Z.ones 4). change 63 with (Z.ones 6).
  rewrite !land_low by (simpl; lia). simpl Z.pow.
  destruct (Z.eq_dec a 0) as [Ha0|Ha0]; [specialize (H0 Ha0)|];
  (destruct (Z.eq_dec a 13) as [Ha13|Ha13]; [specialize (H13 Ha13)|]);
  zbool; destruct (utf8_decode rest); (reflexivity || (f_equal; f_equal; lia)).
Qed.

Lemma dec4 a b d r rest :
  0 <= a <= 4 -> 0 <= b <= 63 -> 0 <= d <= 63 -> 0 <= r <= 63 ->
  (a = 0 -> 16 <= b) -> (a = 4 -> b <= 15) ->
  utf8_decode (byte_of_Z (0xF0 + a) :: byte_of_Z (0x80 + b) :: byte_of_Z (0x80 + d)
                 :: byte_of_Z (0x80 + r) :: rest) =
    match utf8_decode rest with
    | Some cs => Some (262144 * a + 4096 * b + 64 * d + r :: cs)
    | None => None
    end.
Proof.
  intros Ha Hb Hd Hr H0 H4. cbn [utf8_decode]. unfold cont, cbits, in_range.
  rewrite !bval_byte_of_Z, !Z.mod_small by lia.
  replace (0xF0 + a) with (30 * 2 ^ 3 + a) by reflexivity.
  replace (0x80 + b) with (2 * 2 ^ 6 + b) by reflexivity.
  replace (0x80 + d) with (2 * 2 ^ 6 + d) by reflexivity.
  replace (0x80 + r) with (2 * 2 ^ 6 + r) by reflexivity.
  change 7 with (Z.ones 3). change 63 with (Z.ones 6).
  rewrite !land_low by (simpl; lia). simpl Z.pow.
  destruct (Z.eq_dec a 0) as [Ha0|Ha0]; [specialize (H0 Ha0)|];
  (destruct (Z.eq_dec a 4) as [Ha4|Ha4]; [specialize (H4 Ha4)|]);
  zbool; destruct (utf8_decode rest); (reflexivity || (f_equal; f_equal; lia)).
Qed.

Lemma utf8_cp_roundtrip c rest :
  0 <= c <= 0x10FFFF -> ~ (0xD800 <= c <= 0xDFFF) ->
  exists b, utf8_encode_cp c = Some b /\ b <> [] /\
    utf8_decode (b ++ rest) =
      match utf8_decode rest with Some cs => Some (c :: cs) | None => None end.
Proof.
  intros Hc Hs. unfold utf8_encode_cp, in_range.
  rewrite !Z.shiftr_div_pow2 by lia. change 63 with (Z.ones 6).
  rewrite !Z.land_ones by lia.
  change (2 ^ 6) with 64. change (2 ^ 12) with 4096. change (2 ^ 18) with 262144.
  destruct (Z_lt_le_dec c 0x80).
  { zbool. eexists. split; [reflexivity|]. split; [discriminate|].
    apply dec1. lia. }
  destruct (Z_lt_le_dec c 0x800).
  { zbool. eexists. split; [reflexivity|]. split; [discriminate|]. simpl app.
    rewrite dec2 by (Z.div_mod_to_equations; lia).
    destruct (utf8_decode rest); [f_equal; f_equal; Z.div_mod_to_equations; lia|reflexivity]. }
  replace ((55296 <=? c) && (c <=? 57343)) with false
    by (symmetry; apply andb_false_iff;
        destruct (Z.leb_spec 55296 c); [right; apply Z.leb_gt; lia|left; reflexivity]).
  destruct (Z_lt_le_dec c 0x10000).
  { zbool. eexists. split; [reflexivity|]. split; [discriminate|]. simpl app.
    rewrite dec3 by (Z.div_mod_to_equations; lia).
    destruct (utf8_decode rest); [f_equal; f_equal; Z.div_mod_to_equations; lia|reflexivity]. }
  zbool. eexists. split; [reflexivity|]. split; [discriminate|]. simpl app.
  rewrite dec4 by (Z.div_mod_to_equations; lia).
  destruct (utf8_decode rest); [f_equal; f_equal; Z.div_mod_to_equations; lia|reflexivity].
Qed.

Lemma utf8_cp_surrogate c :
  0xD800 <= c <= 0xDFFF -> utf8_encode_cp c = None.
Proof. intros Hc. unfold utf8_encode_cp, in_range. zbool. reflexivity. Qed.

Lemma utf8_roundtrip s :
  Forall (fun c => 0 <= c <= 0x10FFFF /\ ~ (0xD800 <= c <= 0xDFFF)) s ->
  exists b, utf8_encode s = Some b /\ utf8_decode b = Some s.
Proof.
  induction s as [|c s IH]; intros Hs; [exists []; split; reflexivity|].
  apply Forall_cons in Hs. destruct Hs as [[Hc Hsur] Hs].
  destruct (IH Hs) as (bs & He & Hd).
  destruct (utf8_cp_roundtrip c bs Hc Hsur) as (b & Hb & _ & Hdec).
  exists (b ++ bs). simpl. rewrite Hb, He. split; [reflexivity|].
  rewrite Hdec, Hd. reflexivity.
Qed.

Lemma utf8_encode_none s :
  Forall (fun c => 0 <= c <= 0x10FFFF) s ->
  utf8_encode s = None <-> exists c, c ∈ s /\ 0xD800 <= c <= 0xDFFF.
Proof.
  induction s as [|c s IH]; intros Hs.
  - split; [discriminate|]. intros (c & Hc & _). set_solver.
  - apply Forall_cons in Hs. destruct Hs as [Hc Hs]. simpl.
    destruct (decide (0xD800 <= c <= 0xDFFF)) as [Hsur|Hsur].
    + rewrite (utf8_cp_surrogate c Hsur). split; [|reflexivity].
      intros _. exists c. split; [set_solver|exact Hsur].
    + destruct (utf8_cp_roundtrip c [] Hc Hsur) as (b & Hb & _ & _). rewrite Hb.
      split.
      * intros Hn. destruct (utf8_encode s) eqn:He; [discriminate|].
        destruct (proj1 (IH Hs) eq_refl) as (c' & Hin & Hr).
        exists c'. split; [set_solver|exact Hr].
      * intros (c' & Hin & Hr). rewrite elem_of_cons in Hin.
        destruct Hin as [->|Hin]; [contradiction|].
        rewrite (proj2 (IH Hs) (ex_intro _ c' (conj Hin Hr))). reflexivity.
Qed.

(** ** X1: a [str] key comes back as the same [str] *)

(** A [str] key without lone surrogates, serialized by [key_serializer]
    and read back by the consumer's [record.key.decode('utf-8') if
    record.key else None], gives the same string, except the empty string,
    which comes back as [None]. *)
Theorem key_serializer_str_roundtrip {O : Type} (py_str : O -> pystr) s :
  Forall (fun c => 0 <= c <= 0x10FFFF /\ ~ (0xD800 <= c <= 0xDFFF)) s ->
  exists b, key_serializer py_str (KeyStr s) = KeyOk (Some b) /\
    decode_key (Some b) = Ok (match s with [] => None | _ :: _ => Some s end).
Proof.
  intros Hs. destruct (utf8_roundtrip s Hs) as (b & He & Hd).
  exists b. unfold key_serializer, encode_utf8. rewrite He. split; [reflexivity|].
  destruct s as [|c s].
  - simpl in He. injection He as <-. reflexivity.
  - destruct b as [|x b]; [discriminate|].
    unfold decode_key, decode_utf8. rewrite Hd. reflexivity.
Qed.

(** ** X2: a lone surrogate in a [str] key raises *)

(** [key_serializer] raises [UnicodeEncodeError] on a [str] key exactly
    when the key holds a lone surrogate (U+D800 to U+DFFF). *)
Theorem key_serializer_surrogate {O : Type} (py_str : O -> pystr) s :
  Forall (fun c => 0 <= c <= 0x10FFFF) s ->
  key_serializer py_str (KeyStr s) = KeyUnicodeEncodeError <->
  exists c, c ∈ s /\ 0xD800 <= c <= 0xDFFF.
Proof.
  intros Hs. rewrite <- (utf8_encode_none s Hs).
  unfold key_serializer, encode_utf8.
  destruct (utf8_encode s); split; congruence.
Qed.

(** ** X3: the consumer reads back the frame the producer writes *)

(** For a model instance that validates and whose schema id fits in 32
    bits, [value_serializer] succeeds, and [value_deserializer] on its output
    resolves exactly that schema id and hands exactly the serialized Avro
    body to the Avro reader: whatever it returns is what resolving the id,
    reading the body, [parse_obj] and [validate] give. *)
Theorem value_frame_roundtrip o c s :
  validate E o = None -> 0 <= schema_id_of E o < 2 ^ 32 ->
  exists p, value_serializer E (PAvro o) = Ok (Some p) /\
    value_deserializer E (Some p) c s =
      (sc <- resolve_schema E (schema_id_of E o) ;;;
       g <- lift (schemaless_reader E (serialize E o) sc) ;;;
       v <- lift (parse_obj E c g) ;;;
       match validate E v with Some e => raise e | None => ret (Some v) end) s.
Proof.
  intros Hv Hid.
  exists (byte_of_Z 0 :: be32 (schema_id_of E o) ++ serialize E o).
  split.
  - unfold value_serializer, pack_bI, MAGIC_BYTE. rewrite Hv.
    replace (in_range 0 (2 ^ 32 - 1) (schema_id_of E o)) with true
      by (unfold in_range; zbool; reflexivity).
    reflexivity.
  - pose proof (unpack_be32 _ Hid) as Hu. unfold be32 in Hu.
    unfold value_deserializer. munfold. cbn [skipn firstn app be32].
    rewrite firstn_O, skipn_O, Hu, bval_byte_of_Z. reflexivity.
Qed.

(** ** X4: a frame shorter than five bytes *)

(** A payload that starts with the magic byte 0 but has fewer than four
    bytes after it makes [struct.unpack('>I', data[1:5])] raise; the schema
    cache and the registry are not touched. *)
Theorem value_deserializer_short_frame b rest c s :
  bval b = 0 -> (length rest < 4)%nat ->
  value_deserializer E (Some (b :: rest)) c s = (Err StructError, s).
Proof.
  intros Hb Hl. unfold value_deserializer. munfold. simpl. rewrite Hb. simpl.
  destruct rest as [|x1 [|x2 [|x3 [|x4 r]]]]; simpl in *; try lia; reflexivity.
Qed.

(** ** X5: the schema cache is never invalidated *)

Lemma cache_ext_refl (s : St) : cache_ext s s.
Proof. split; [auto|]. exists []. rewrite app_nil_r. split; [reflexivity|constructor]. Qed.

Lemma cache_ext_same (s s' : St) :
  schemas s' = schemas s -> reg_calls s' = reg_calls s -> cache_ext s s'.
Proof.
  intros Hs Hr. split; [intros id sc; rewrite Hs; auto|].
  exists []. rewrite app_nil_r. split; [exact Hr|constructor].
Qed.

Lemma cache_ext_trans (s1 s2 s3 : St) : cache_ext s1 s2 -> cache_ext s2 s3 -> cache_ext s1 s3.
Proof.
  intros (H12 & c1 & Hr1 & Hf1) (H23 & c2 & Hr2 & Hf2).
  split; [auto|]. exists (c1 ++ c2). split; [rewrite Hr2, Hr1, app_assoc; reflexivity|].
  apply Forall_app. split; [exact Hf1|].
  eapply Forall_impl; [exact Hf2|]. intros id H. cbv beta in H |- *.
  destruct (schemas s1 !! id) as [sc|] eqn:E1; [|reflexivity].
  rewrite (H12 _ _ E1) in H. discriminate.
Qed.

Lemma resolve_schema_cache id s : cache_ext s (snd (resolve_schema E id s)).
Proof.
  unfold resolve_schema; munfold; simpl.
  destruct (schemas s !! id) as [sc|] eqn:Hs; simpl; [apply cache_ext_refl|].
  destruct (get_schema E _ id) as [sc|e]; simpl; split.
  - intros id' sc' H. destruct (decide (id = id')) as [<-|Hne]; [congruence|].
    cbn [schemas set_schemas set_reg_calls]. rewrite lookup_insert_ne by exact Hne. exact H.
  - exists [id]. split; [reflexivity|]. constructor; [exact Hs|constructor].
  - auto.
  - exists [id]. split; [reflexivity|]. constructor; [exact Hs|constructor].
Qed.

Lemma value_deserializer_cache d c s : cache_ext s (snd (value_deserializer E d c s)).
Proof.
  unfold value_deserializer; munfold.
  destruct d as [d|]; [|apply cache_ext_refl].
  destruct d as [|b d]; [apply cache_ext_refl|]. simpl.
  destruct (negb (bval b =? 0)); [apply cache_ext_refl|].
  destruct (unpack_I _); [|apply cache_ext_refl].
  pose proof (resolve_schema_cache a s) as Hr.
  destruct (resolve_schema E a s) as [[sc|e] s1]; [|exact Hr].
  destruct (schemaless_reader E _ sc); [|exact Hr].
  destruct (parse_obj E c _); [|exact Hr].
  destruct (validate E _); exact Hr.
Qed.

Lemma publish_all_regs t msgs s :
  schemas (snd (publish_all E t msgs s)) = schemas s /\
  reg_calls (snd (publish_all E t msgs s)) = reg_calls s.
Proof.
  revert s. induction msgs as [|[m|] msgs IH]; intros s; simpl; [auto| |auto].
  unfold send_and_wait; munfold.
  destruct (value_serializer E (m_value m)) as [payload|e]; [|auto].
  destruct (broker_ack E _ _ payload _); simpl; [auto|].
  destruct (IH (add_event (EvSend (m_topic m) (m_key m) payload
      (dict_merge [(str_of "processed_topic", t)] (m_headers m))) s)) as [H1 H2].
  destruct (publish_all E t msgs _). simpl in *. auto.
Qed.

Lemma process_record_cache va r s : cache_ext s (snd (process_record E va r s)).
Proof.
  unfold process_record, commit; munfold.
  destruct (lookup_topic va (r_topic r)) as [c|]; [|apply cache_ext_refl].
  destruct (decode_key (r_key r)) as [key|e]; [|apply cache_ext_refl].
  pose proof (value_deserializer_cache (r_value r) c s) as Hv.
  destruct (value_deserializer E (r_value r) c s) as [[v|e] s1]; [|exact Hv].
  destruct (decode_headers [] (r_headers r)) as [hs|e]; [|exact Hv].
  eapply cache_ext_trans; [exact Hv|].
  destruct (callback E v key hs (r_topic r)) as [items|e]; simpl;
    [|apply cache_ext_same; reflexivity].
  pose proof (publish_all_regs (r_topic r) items (add_event (EvHandler v key hs (r_topic r)) s1))
    as [H1 H2].
  destruct (publish_all E (r_topic r) items _) as [[u|e] s2]; simpl in *;
    apply cache_ext_same; assumption.
Qed.

Lemma loop_step_cache va r s : cache_ext s (snd (loop_step E va r s)).
Proof.
  pose proof (process_record_cache va r s) as Hp.
  destruct (process_record E va r s) as [[u|e] s1] eqn:H.
  - rewrite (loop_step_ok E _ _ _ _ _ H). exact Hp.
  - rewrite (loop_step_err E _ _ _ _ _ H). eapply cache_ext_trans; [exact Hp|].
    destruct (is_decode_warning e); apply cache_ext_same; reflexivity.
Qed.

Lemma consume_loop_cache fuel va s : cache_ext s (snd (consume_loop E fuel va s)).
Proof.
  revert s. induction fuel as [|n IH]; intros s; [apply cache_ext_refl|].
  cbn [consume_loop]. unfold poll; munfold.
  destruct (nth_error (log s) (pos s)) as [r|]; [|apply cache_ext_refl].
  pose proof (loop_step_cache va r (set_pos (S (pos s)) s)) as Hl.
  pose proof (loop_step_result E va r (set_pos (S (pos s)) s)) as Hres.
  destruct (loop_step E va r _) as [res s2]. simpl in Hres, Hl. subst res.
  eapply cache_ext_trans; [|apply IH].
  eapply cache_ext_trans; [apply cache_ext_same; reflexivity|exact Hl].
Qed.

(** Once a schema id is in the module-level [schemas] dict, it stays there
    with the same schema for the whole consume loop, and the registry is
    never asked for that id again. *)
Theorem schema_cache_persists fuel va s id sc :
  schemas s !! id = Some sc ->
  schemas (snd (consume_loop E fuel va s)) !! id = Some sc /\
  exists calls, reg_calls (snd (consume_loop E fuel va s)) = reg_calls s ++ calls /\
    id ∉ calls.
Proof.
  intros Hs. destruct (consume_loop_cache fuel va s) as (Hk & calls & Hr & Hf).
  split; [exact (Hk _ _ Hs)|]. exists calls. split; [exact Hr|].
  intros Hin. rewrite Forall_forall in Hf. specialize (Hf id Hin). congruence.
Qed.

(** ** X6, X7: [{k: v.decode('utf-8') for k, v in record.headers}] *)

Lemma find_app {A} (f : A -> bool) l1 l2 :
  find f (l1 ++ l2) = match find f l1 with Some x => Some x | None => find f l2 end.
Proof.
  induction l1 as [|a l1 IH]; simpl; [reflexivity|]. destruct (f a); [reflexivity|exact IH].
Qed.

Lemma dict_set_keys d k v x : x ∈ map fst (dict_set d k v) -> x = k \/ x ∈ map fst d.
Proof.
  induction d as [|[k' v'] d IH]; simpl; intros Hx.
  - left. set_solver.
  - destruct (str_eqb k k'); simpl in Hx; [right; exact Hx|].
    rewrite elem_of_cons in Hx. destruct Hx as [->|Hx]; [right; set_solver|].
    destruct (IH Hx) as [->|Hx']; [left; reflexivity|right; set_solver].
Qed.

Lemma dict_set_nodup d k v : NoDup (map fst d) -> NoDup (map fst (dict_set d k v)).
Proof.
  induction d as [|[k' v'] d IH]; simpl; intros Hnd.
  - constructor; [set_solver|constructor].
  - apply NoDup_cons in Hnd. destruct Hnd as [Hnot Hnd].
    destruct (str_eqb k k') eqn:H; simpl; constructor; auto.
    intros Hin. destruct (dict_set_keys _ _ _ _ Hin) as [->|Hin']; [|contradiction].
    rewrite str_eqb_refl in H. discriminate.
Qed.

Lemma decode_headers_spec acc hs h :
  decode_headers acc hs = Ok h -> NoDup (map fst acc) ->
  NoDup (map fst h) /\
  forall k, dict_get h k =
    match find (fun p => str_eqb p.1 k) (rev hs) with
    | Some (_, Some b) => utf8_decode b
    | Some (_, None) => None
    | None => dict_get acc k
    end.
Proof.
  revert acc. induction hs as [|[k0 v0] hs IH]; intros acc Hd Hnd; simpl in Hd.
  - injection Hd as <-. split; auto.
  - destruct v0 as [b|]; [|discriminate]. unfold decode_utf8 in Hd.
    destruct (utf8_decode b) as [s0|] eqn:Hb; [|discriminate].
    destruct (IH _ Hd (dict_set_nodup _ _ _ Hnd)) as [Hn Hk]. split; [exact Hn|].
    intros k. rewrite Hk. simpl rev. rewrite find_app.
    destruct (find _ (rev hs)) as [[k1 [b1|]]|]; [reflexivity|reflexivity|]. simpl.
    destruct (str_eqb k0 k) eqn:Hkk.
    + apply str_eqb_true in Hkk. subst k0. rewrite dict_get_set_eq, Hb. reflexivity.
    + rewrite dict_get_set_ne; [reflexivity|].
      intros ->. rewrite str_eqb_refl in Hkk. discriminate.
Qed.

Lemma decode_headers_ok_gen acc hs :
  (exists h, decode_headers acc hs = Ok h) <->
  Forall (fun p => exists b cs, p.2 = Some b /\ utf8_decode b = Some cs) hs.
Proof.
  revert acc. induction hs as [|[k v] hs IH]; intros acc; simpl.
  - split; [intros _; constructor|eauto].
  - rewrite Forall_cons. destruct v as [b|].
    + unfold decode_utf8. destruct (utf8_decode b) as [s0|] eqn:Hb.
      * rewrite IH. split.
        -- intros H. split; [exists b, s0; split; [reflexivity|exact Hb]|exact H].
        -- intros [_ H]. exact H.
      * split; [intros [h Hh]; discriminate|].
        intros [(b' & cs & Hb' & Hd) _]. simpl in Hb'. injection Hb' as <-. congruence.
    + split; [intros [h Hh]; discriminate|].
      intros [(b' & cs & Hb' & _) _]. discriminate.
Qed.

(** Decoding the headers of a record succeeds exactly when every header
    value is present (not null) and valid UTF-8; a null value raises
    (AttributeError on [None.decode]), invalid bytes raise
    UnicodeDecodeError. *)
Theorem decode_headers_ok_iff hs :
  (exists h, decode_headers [] hs = Ok h) <->
  Forall (fun p => exists b cs, p.2 = Some b /\ utf8_decode b = Some cs) hs.
Proof. apply decode_headers_ok_gen. Qed.

(** When a record carries the same header name more than once, the handler
    sees each name once, with the value of its last occurrence. *)
Theorem decode_headers_last_wins hs h :
  decode_headers [] hs = Ok h ->
  NoDup (map fst h) /\ forall k, dict_get h k = last_header hs k.
Proof.
  intros Hd. destruct (decode_headers_spec [] hs h Hd (NoDup_nil_2)) as [Hn Hk].
  split; [exact Hn|]. intros k. rewrite Hk. unfold last_header.
  destruct (find _ (rev hs)) as [[k1 [b1|]]|]; reflexivity.
Qed.

(** ** X8, X9: topic registration *)

Lemma pick_events_nonclass va l va' : pick_events E va l = Ok va' -> ANonClass ∉ l.
Proof.
  revert va. induction l as [|a l IH]; intros va H; [apply not_elem_of_nil|].
  destruct a as [c| |]; simpl in H; [| |discriminate];
    rewrite not_elem_of_cons; (split; [discriminate|]).
  - destruct (cls_is_avro E c); [destruct (existsb _ _); [discriminate|]|];
      eapply IH; exact H.
  - eapply IH; exact H.
Qed.

(** Registering a handler succeeds exactly when no alternative of its
    [value] annotation makes [issubclass] raise (a [typing] generic such as
    [typing.List[int]], a string annotation, [None]) and the topics derived
    from its AvroModel classes are pairwise distinct; classes that are not
    AvroModels and builtin aliases such as [list[int]] are skipped. *)
Theorem extract_value_annotation_ok_iff params :
  (exists va, extract_value_annotation E params = Ok va) <->
  (ANonClass ∉ value_atoms params) /\ NoDup (derived_topics E (value_atoms params)).
Proof.
  unfold extract_value_annotation. rewrite scan_params_atoms. split.
  - intros [va H]. split; [eapply pick_events_nonclass; exact H|].
    destruct (pick_events_ok E [] _ va (NoDup_nil_2) H) as [Hm Hn].
    simpl in Hm. rewrite Hm in Hn. exact Hn.
  - intros [Hn Hnd]. apply (pick_events_succeeds E); [exact Hn|exact Hnd].
Qed.

Lemma pick_events_bound (va : list (pystr * Cls)) l va' :
  pick_events E va l = Ok va' ->
  Forall (fun p => cls_is_avro E p.2 = true /\ to_kebab_case E (cls_name E p.2) = p.1) va ->
  Forall (fun p => cls_is_avro E p.2 = true /\ to_kebab_case E (cls_name E p.2) = p.1) va'.
Proof.
  revert va. induction l as [|a l IH]; intros va H Hf; simpl in H.
  - injection H as <-. exact Hf.
  - destruct a as [c| |]; simpl in H; [|eapply IH; [exact H|exact Hf]|discriminate].
    destruct (cls_is_avro E c) eqn:Hav.
    + destruct (existsb _ _); [discriminate|]. eapply IH; [exact H|].
      apply Forall_app. split; [exact Hf|]. constructor; [split; [exact Hav|reflexivity]|constructor].
    + eapply IH; [exact H|exact Hf].
Qed.

Lemma lookup_topic_in (va : list (pystr * Cls)) t c : lookup_topic va t = Some c -> (t, c) ∈ va.
Proof.
  induction va as [|[t' c'] va IH]; simpl; [discriminate|].
  destruct (str_eqb t t') eqn:H.
  - intros Hc. injection Hc as <-. apply str_eqb_true in H. subst t'. left.
  - intros Hc. right. exact (IH Hc).
Qed.

Lemma extract_topics params va :
  extract_value_annotation E params = Ok va ->
  map fst va = derived_topics E (value_atoms params) /\ NoDup (map fst va).
Proof.
  unfold extract_value_annotation. rewrite scan_params_atoms. intros H.
  destruct (pick_events_ok E [] _ va (NoDup_nil_2) H) as [Hm Hn]. simpl in Hm. auto.
Qed.

(** The topics a registered handler is bound to are those derived from the
    AvroModel classes of its [value] annotation, in declaration order, and
    the class bound to a topic is an AvroModel whose kebab-case name is that
    topic. *)
Theorem extract_value_annotation_bindings params va :
  extract_value_annotation E params = Ok va ->
  map fst va = derived_topics E (value_atoms params) /\
  forall t c, lookup_topic va t = Some c ->
    cls_is_avro E c = true /\ to_kebab_case E (cls_name E c) = t.
Proof.
  intros H. split; [exact (proj1 (extract_topics params va H))|].
  intros t c Hl. apply lookup_topic_in in Hl.
  unfold extract_value_annotation in H. rewrite scan_params_atoms in H.
  pose proof (pick_events_bound [] _ va H (Forall_nil_2 _)) as Hf.
  rewrite Forall_forall in Hf. exact (Hf _ Hl).
Qed.

(** ** X10, X11: what [consume_messages] subscribes to and starts *)

(** With [KAFKA_BROKERS] set, [consume_messages] first starts the consumer
    and then subscribes it to the derived topics, or to every topic (the
    pattern [.*]) when no AvroModel class is declared for [value]. *)
Theorem consume_messages_subscribes fuel params b s va :
  extract_value_annotation E params = Ok va ->
  exists evs,
    trace (snd (consume_messages E fuel params (Some b) s)) =
      trace s ++ EvConsumerStart ::
        match derived_topics E (value_atoms params) with
        | [] => EvSubscribePattern (str_of ".*")
        | ts => EvSubscribe ts
        end :: evs.
Proof.
  intros Hx. destruct (extract_topics params va Hx) as [Hm _].
  unfold consume_messages, get_consumer, get_producer; munfold.
  rewrite Hx. simpl. rewrite Hm.
  destruct (derived_topics E (value_atoms params)); simpl;
    destruct (producer_made s); simpl; destruct b as [|? ?]; simpl;
    eexists; rewrite <- !app_assoc; reflexivity.
Qed.

(** With [KAFKA_BROKERS] set to the empty string, [get_consumer] (which
    tests [is None]) starts the consumer, while [get_producer] (which tests
    truthiness) creates the producer without starting it. *)
Theorem empty_brokers_consumer_without_producer fuel params s va :
  extract_value_annotation E params = Ok va -> producer_made s = false ->
  exists evs,
    trace (snd (consume_messages E fuel params (Some []) s)) = trace s ++ evs /\
    EvConsumerStart ∈ evs /\ EvNoBrokersWarning ∈ evs /\ EvProducerStart ∉ evs.
Proof.
  intros Hx Hp.
  unfold consume_messages, get_consumer, get_producer; munfold.
  rewrite Hx. simpl.
  destruct (map fst va); simpl; rewrite Hp; simpl; eexists;
    (split; [rewrite <- !app_assoc; reflexivity|]); set_solver.
Qed.

(** ** X12: the producer singleton *)

(** [get_producer] creates the producer once: the first call starts it when
    [KAFKA_BROKERS] is non-empty and only warns otherwise; every later call
    returns it and does nothing, even if [KAFKA_BROKERS] has been set since. *)
Theorem get_producer_once b1 b2 (s : St) :
  get_producer b2 (snd (get_producer b1 s)) = (Ok tt, snd (get_producer b1 s)) /\
  (producer_made s = false ->
     trace (snd (get_producer b1 s)) =
       trace s ++ [match b1 with Some (_ :: _) => EvProducerStart | _ => EvNoBrokersWarning end]).
Proof.
  unfold get_producer; munfold.
  destruct (producer_made s) eqn:H; simpl.
  - rewrite H. split; [reflexivity|discriminate].
  - destruct b1 as [[|x l]|]; simpl; split; reflexivity.
Qed.

(** ** X13: an object that is not a [KafkaMessage] *)

Lemma publish_all_prefix t ms rest s :
  Forall (fun m => exists payload, value_serializer E (m_value m) = Ok payload /\
            broker_ack E (m_topic m) (m_key m) payload (hdr t m) = None) ms ->
  exists sends s',
    publish_all E t (map KM ms ++ NotKM :: rest) s = (Err NotKafkaMessage, s') /\
    Forall2 (sent_ok E t) ms sends /\ trace s' = trace s ++ sends /\
    pos s' = pos s /\ committed s' = committed s.
Proof.
  revert s. induction ms as [|m ms IH]; intros s Hall; simpl.
  - exists [], s. rewrite app_nil_r. repeat split; constructor.
  - apply Forall_cons in Hall. destruct Hall as [(payload & Hser & Hack) Hall].
    unfold send_and_wait; munfold. rewrite Hser.
    unfold hdr in Hack. rewrite Hack. fold (hdr t m).
    destruct (IH (add_event (EvSend (m_topic m) (m_key m) payload (hdr t m)) s) Hall)
      as (sends & s' & Hp & H2 & Ht & Hpos & Hc).
    rewrite Hp.
    exists (EvSend (m_topic m) (m_key m) payload (hdr t m) :: sends), s'.
    split; [reflexivity|]. split.
    + constructor; [|exact H2]. exists payload. auto.
    + simpl in Ht, Hpos, Hc. rewrite Ht, <- app_assoc. auto.
Qed.

(** When the handler returns some messages followed by an object that is
    not a [KafkaMessage], the messages before it are published, then the
    iteration takes the error path: nothing is committed and the position
    goes back to the committed offset, so the record and its messages are
    delivered again. *)
Theorem non_message_after_sends va r s c k v s1 h ms rest :
  lookup_topic va (r_topic r) = Some c ->
  decode_key (r_key r) = Ok k ->
  value_deserializer E (r_value r) c s = (Ok v, s1) ->
  decode_headers [] (r_headers r) = Ok h ->
  callback E v k h (r_topic r) = Ok (map KM ms ++ NotKM :: rest) ->
  Forall (fun m => exists payload, value_serializer E (m_value m) = Ok payload /\
            broker_ack E (m_topic m) (m_key m) payload (hdr (r_topic r) m) = None) ms ->
  exists sends,
    Forall2 (sent_ok E (r_topic r)) ms sends /\
    trace (snd (loop_step E va r s)) =
      trace s1 ++ EvHandler v k h (r_topic r) :: sends ++ [EvError; EvSeek; EvSleep 5] /\
    pos (snd (loop_step E va r s)) = committed s /\
    committed (snd (loop_step E va r s)) = committed s.
Proof.
  intros Hc Hk Hv Hh Hcb Hall.
  pose proof (value_deserializer_io E (r_value r) c s) as Hio. rewrite Hv in Hio.
  destruct Hio as (_ & _ & Hc1 & _). simpl in Hc1.
  destruct (publish_all_prefix (r_topic r) ms rest
              (add_event (EvHandler v k h (r_topic r)) s1) Hall)
    as (sends & s2 & Hp & H2 & Ht & _ & Hc2).
  assert (Hpr : process_record E va r s = (Err NotKafkaMessage, s2)).
  { unfold process_record; munfold. rewrite Hc, Hk, Hv, Hh. simpl. rewrite Hcb, Hp. reflexivity. }
  rewrite (loop_step_err E _ _ _ _ _ Hpr). simpl.
  exists sends. split; [exact H2|]. simpl in Ht, Hc2.
  rewrite Ht, <- !app_assoc. simpl. repeat split; congruence.
Qed.

(** ** X14: offsets over a run of the loop *)

(** Over any run of the consume loop that starts with the committed offset
    at most the position and the position within the partition, the
    partition is unchanged, the committed offset never decreases and never
    passes the position, and the position never passes the end of the
    partition. *)
Theorem consume_loop_offsets fuel va s :
  (committed s <= pos s <= length (log s))%nat ->
  log (snd (consume_loop E fuel va s)) = log s /\
  (committed s <= committed (snd (consume_loop E fuel va s)) <=
     pos (snd (consume_loop E fuel va s)))%nat /\
  (pos (snd (consume_loop E fuel va s)) <= length (log s))%nat.
Proof.
  revert s. induction fuel as [|n IH]; intros s Hs; cbn [consume_loop]; [munfold; simpl; split; [reflexivity|lia]|].
  unfold poll; munfold.
  destruct (nth_error (log s) (pos s)) as [r|] eqn:Hn; [|simpl; split; [reflexivity|lia]].
  assert (Hlt : (pos s < length (log s))%nat).
  { apply nth_error_Some. congruence. }
  pose proof (loop_step_state E va r (set_pos (S (pos s)) s)) as Hst.
  pose proof (loop_step_result E va r (set_pos (S (pos s)) s)) as Hres.
  destruct (loop_step E va r _) as [res s2]. simpl in Hres, Hst. subst res.
  destruct Hst as (Hl & Hc & Hp).
  destruct (IH s2) as (Hl' & Hc' & Hp'); [rewrite Hl; lia|].
  rewrite Hl', Hl. split; [reflexivity|]. rewrite Hl in Hp'. lia.
Qed.

End Extras.


(** * Runs on concrete inputs *)

(** C1 at [rec1]: the iteration's events are the handler call, one
    acknowledged send, the commit. *)
Lemma commit_only_after_all_publishes_witness :
  exists v k h ms sends,
    callback Demo.E_fwd v k h (r_topic Demo.rec1) = Ok (map KM ms) /\
    Forall2 (sent_ok Demo.E_fwd (r_topic Demo.rec1)) ms sends /\
    Demo.evs_ok = EvHandler v k h (r_topic Demo.rec1) :: sends ++ [EvCommit].
Proof.
  apply (commit_only_after_all_publishes Demo.E_fwd Demo.va Demo.rec1 Demo.s0
           (fst (loop_step Demo.E_fwd Demo.va Demo.rec1 Demo.s0))
           (snd (loop_step Demo.E_fwd Demo.va Demo.rec1 Demo.s0)) Demo.evs_ok).
  - apply surjective_pairing.
  - vm_compute. reflexivity.
  - apply list_elem_of_In. unfold Demo.evs_ok. simpl. right. right. left. reflexivity.
Defined.

(** C2: a model instance that validates, with schema id 2^32, is not
    encoded: [struct.pack] raises. *)
Lemma value_serializer_rejects_wide_schema_id :
  validate Demo.E_fwd (2 ^ 32) = None /\
  value_serializer Demo.E_fwd (PAvro (2 ^ 32)) = Err StructError.
Proof. split; vm_compute; reflexivity. Qed.

(** C3 at the payload [01 00]. *)
Lemma bad_magic_byte_no_resolution_witness :
  value_deserializer Demo.E_fwd (Some [x01; x00]) 0%nat Demo.s0 = (Err MagicByteError, Demo.s0) /\
  is_decode_warning MagicByteError = true.
Proof.
  apply bad_magic_byte_no_resolution. intros H. vm_compute in H. discriminate H.
Defined.

(** C4 at [rec1]: the republished message carries
    [processed_topic = user-feedback]. *)
Lemma republished_headers_merge_witness :
  exists v key hs items m,
    callback Demo.E_fwd v key hs (r_topic Demo.rec1) = Ok items /\ KM m ∈ items /\
    str_of "processed-feedback" = m_topic m /\ str_of "k" = m_key m /\
    [(str_of "processed_topic", str_of "user-feedback")]
      = dict_merge [(str_of "processed_topic", r_topic Demo.rec1)] (m_headers m) /\
    (str_of "processed_topic" ∉ map fst (m_headers m) ->
       dict_get [(str_of "processed_topic", str_of "user-feedback")] (str_of "processed_topic")
         = Some (r_topic Demo.rec1)) /\
    (str_of "processed_topic" ∈ map fst (m_headers m) ->
       exists v', (str_of "processed_topic", v') ∈ m_headers m /\
         dict_get [(str_of "processed_topic", str_of "user-feedback")] (str_of "processed_topic")
           = Some v').
Proof.
  apply (republished_headers_merge Demo.E_fwd Demo.va Demo.rec1 Demo.s0
           (fst (loop_step Demo.E_fwd Demo.va Demo.rec1 Demo.s0))
           (snd (loop_step Demo.E_fwd Demo.va Demo.rec1 Demo.s0)) Demo.evs_ok
           (str_of "processed-feedback") (str_of "k")
           (Some [x00; x00; x00; x00; x02; x01; x02])
           [(str_of "processed_topic", str_of "user-feedback")]).
  - apply surjective_pairing.
  - vm_compute. reflexivity.
  - apply list_elem_of_In. unfold Demo.evs_ok. simpl. right. left. reflexivity.
Defined.

(** C4: a handler whose message has its own [processed_topic] header gets
    that value published, not the inbound topic. *)
Lemma republished_processed_topic_overridden :
  EvSend (str_of "processed-feedback") (str_of "k") (Some [x00; x00; x00; x00; x02; x01; x02])
    Demo.own_header ∈ trace (snd (loop_step Demo.E_hdr Demo.va Demo.rec1 Demo.s0)) /\
  dict_get Demo.own_header (str_of "processed_topic") <> Some (r_topic Demo.rec1).
Proof.
  split.
  - apply list_elem_of_In. vm_compute. right. left. reflexivity.
  - vm_compute. discriminate.
Qed.

(** C6 at a handler taking [UserFeedback], brokers set, one record
    waiting on [user-feedback]. *)
Lemma consume_messages_returns_before_loop_witness :
  fst (consume_messages Demo.E_fwd 10 Demo.params_one (Some (str_of "kafka:9092")) (Demo.st [Demo.rec1] 0 0)) = Ok tt /\
  pos (snd (consume_messages Demo.E_fwd 10 Demo.params_one (Some (str_of "kafka:9092")) (Demo.st [Demo.rec1] 0 0))) = committed (Demo.st [Demo.rec1] 0 0) /\
  committed (snd (consume_messages Demo.E_fwd 10 Demo.params_one (Some (str_of "kafka:9092")) (Demo.st [Demo.rec1] 0 0))) = committed (Demo.st [Demo.rec1] 0 0) /\
  exists evs,
    trace (snd (consume_messages Demo.E_fwd 10 Demo.params_one (Some (str_of "kafka:9092")) (Demo.st [Demo.rec1] 0 0)))
      = trace (Demo.st [Demo.rec1] 0 0) ++ evs /\
    forall v k h t, EvHandler v k h t ∉ evs.
Proof.
  apply (consume_messages_returns_before_loop Demo.E_fwd 10 Demo.params_one (str_of "kafka:9092")
           (Demo.st [Demo.rec1] 0 0) Demo.va).
  vm_compute. reflexivity.
Defined.

(** C7 at [value: list[int] | UserFeedback | other.UserFeedback]: the
    alias is skipped, and the second class named [UserFeedback] meets the
    topic [user-feedback] already bound. *)
Lemma duplicate_topic_before_subscription_witness :
  extract_value_annotation Demo.E_fwd Demo.params_alias
    = Err (DuplicateTopic (str_of "user-feedback")) /\
  consume_messages Demo.E_fwd 10 Demo.params_alias None Demo.s0
    = (Err (DuplicateTopic (str_of "user-feedback")), Demo.s0).
Proof.
  destruct (duplicate_topic_before_subscription Demo.E_fwd 10 Demo.params_alias None Demo.s0)
    as (e & H1 & H2 & _ & _ & _ & Hdup).
  - intros Hnd. vm_compute in Hnd. inversion Hnd as [|x l Hx _]. apply Hx. left.
  - specialize (Hdup [AAlias; AClass 0%nat] 1%nat [] eq_refl).
    assert (Ht : to_kebab_case Demo.E_fwd (cls_name Demo.E_fwd 1%nat) = str_of "user-feedback")
      by (vm_compute; reflexivity).
    rewrite Ht in Hdup.
    assert (He : e = DuplicateTopic (str_of "user-feedback")).
    { apply Hdup.
      - rewrite !not_elem_of_cons. repeat split; [discriminate|discriminate|apply not_elem_of_nil].
      - cbn. apply NoDup_singleton.
      - reflexivity.
      - vm_compute. left. }
    subst e. split; [exact H1|exact H2].
Defined.

(** C7: at [value: typing.List[int] | UserFeedback | other.UserFeedback]
    the two classes derive the same topic, yet registration does not fail
    with [Duplicate topic]: [issubclass(typing.List[int], AvroModel)] raises
    [TypeError] first. *)
Lemma nonclass_alternative_type_error :
  ~ NoDup (derived_topics Demo.E_fwd (value_atoms Demo.params_nonclass)) /\
  extract_value_annotation Demo.E_fwd Demo.params_nonclass = Err TypeError.
Proof.
  split.
  - intros Hnd. vm_compute in Hnd. inversion Hnd as [|x l Hx _]. apply Hx. left.
  - vm_compute. reflexivity.
Qed.

(** C8: a handler raising [UnicodeDecodeError] takes the warning branch:
    no rewind, no sleep; the record is skipped (position 1, committed 0). *)
Lemma handler_unicode_error_skipped :
  callback Demo.E_fail (Some 2) (Some [116; 101; 115; 116]) [] (str_of "user-feedback")
    = Err UnicodeDecodeError /\
  trace (snd (loop_step Demo.E_fail Demo.va Demo.rec1 Demo.s0))
    = [EvHandler (Some 2) (Some [116; 101; 115; 116]) [] (str_of "user-feedback"); EvWarn] /\
  pos (snd (loop_step Demo.E_fail Demo.va Demo.rec1 Demo.s0)) = 1%nat /\
  committed (snd (loop_step Demo.E_fail Demo.va Demo.rec1 Demo.s0)) = 0%nat.
Proof. vm_compute. repeat split. Qed.

(** C9 at a record on [user-feedback] with no key and an empty value. *)
Lemma empty_payload_takes_retry_path_witness :
  value_deserializer Demo.E_fwd (Some []) 0%nat Demo.s0 = (Err IndexError, Demo.s0) /\
  is_decode_warning IndexError = false /\
  loop_step Demo.E_fwd Demo.va Demo.rec_empty Demo.s0 = (Ok tt, after_retry Demo.s0).
Proof.
  apply (empty_payload_takes_retry_path Demo.E_fwd Demo.va Demo.rec_empty Demo.s0 0%nat None);
    vm_compute; reflexivity.
Defined.

(** C10 at a record on [audit-log] at offset 0, three iterations. *)
Lemma unbound_topic_retried_forever_witness :
  trace (snd (consume_loop Demo.E_fwd 3 Demo.va Demo.s_unb))
    = [EvError; EvSeek; EvSleep 5; EvError; EvSeek; EvSleep 5; EvError; EvSeek; EvSleep 5] /\
  pos (snd (consume_loop Demo.E_fwd 3 Demo.va Demo.s_unb)) = 0%nat.
Proof.
  destruct (unbound_topic_retried_forever Demo.E_fwd Demo.va 0%nat Demo.rec_unbound 3%nat Demo.s_unb)
    as (_ & _ & Hfix).
  - vm_compute. reflexivity.
  - vm_compute. reflexivity.
  - vm_compute. lia.
  - vm_compute. lia.
  - destruct (Hfix eq_refl eq_refl) as (Hp & _ & _ & Ht).
    split; [|exact Hp]. rewrite Ht. reflexivity.
Defined.

(** X1 at the key ["key"]. *)
Lemma key_serializer_str_roundtrip_witness :
  exists b, key_serializer (O:=unit) (fun _ => []) (KeyStr (str_of "key")) = KeyOk (Some b) /\
    decode_key (Some b) = Ok (Some (str_of "key")).
Proof.
  destruct (key_serializer_str_roundtrip (O:=unit) (fun _ => []) (str_of "key")) as (b & H1 & H2).
  - apply Forall_forall. intros c Hc. apply list_elem_of_In in Hc. vm_compute in Hc.
    repeat destruct Hc as [<-|Hc]; try contradiction; lia.
  - exists b. split; [exact H1|exact H2].
Defined.

(** X2 at a key holding the lone surrogate U+D800. *)
Lemma key_serializer_surrogate_witness :
  key_serializer (O:=unit) (fun _ => []) (KeyStr [0xD800]) = KeyUnicodeEncodeError.
Proof.
  apply (key_serializer_surrogate (O:=unit) (fun _ => []) [0xD800]).
  - apply Forall_forall. intros c Hc. apply list_elem_of_In in Hc. vm_compute in Hc.
    repeat destruct Hc as [<-|Hc]; try contradiction; lia.
  - exists 0xD800. split; [left|lia].
Defined.

(** X3 at the instance with schema id 7: the frame decodes back to [2],
    the length of the body [01 02]. *)
Lemma value_frame_roundtrip_witness :
  exists p, value_serializer Demo.E_fwd (PAvro 7) = Ok (Some p) /\
    fst (value_deserializer Demo.E_fwd (Some p) 0%nat Demo.s0) = Ok (Some 2).
Proof.
  destruct (value_frame_roundtrip Demo.E_fwd 7 0%nat Demo.s0) as (p & H1 & H2).
  - reflexivity.
  - cbn. lia.
  - exists p. split; [exact H1|]. rewrite H2. vm_compute. reflexivity.
Defined.

(** X4 at the payload [00 00 01]. *)
Lemma value_deserializer_short_frame_witness :
  value_deserializer Demo.E_fwd (Some [x00; x00; x01]) 0%nat Demo.s0 = (Err StructError, Demo.s0).
Proof.
  apply (value_deserializer_short_frame Demo.E_fwd x00 [x00; x01] 0%nat Demo.s0);
    [reflexivity|simpl; lia].
Defined.

(** X5 with schema 7 cached before one iteration on [rec1]. *)
Lemma schema_cache_persists_witness :
  schemas (snd (consume_loop Demo.E_fwd 1 Demo.va Demo.s_cached)) !! 7 = Some tt /\
  exists calls, reg_calls (snd (consume_loop Demo.E_fwd 1 Demo.va Demo.s_cached))
                  = reg_calls Demo.s_cached ++ calls /\ 7 ∉ calls.
Proof.
  apply (schema_cache_persists Demo.E_fwd 1 Demo.va Demo.s_cached 7 tt).
  vm_compute. reflexivity.
Defined.

(** X7 at the headers [a: 1], [a: 2]: the handler sees [a: 2]. *)
Lemma decode_headers_last_wins_witness :
  decode_headers [] Demo.hs_dup = Ok [(str_of "a", [50])] /\
  NoDup (map fst [(str_of "a", [50])]) /\
  forall k, dict_get [(str_of "a", [50])] k = last_header Demo.hs_dup k.
Proof.
  assert (H : decode_headers [] Demo.hs_dup = Ok [(str_of "a", [50])])
    by (vm_compute; reflexivity).
  split; [exact H|]. exact (decode_headers_last_wins _ _ H).
Defined.

(** X9 at [handler(value: UserFeedback, ...)]. *)
Lemma extract_value_annotation_bindings_witness :
  map fst Demo.va = derived_topics Demo.E_fwd (value_atoms Demo.params_one) /\
  forall t c, lookup_topic Demo.va t = Some c ->
    cls_is_avro Demo.E_fwd c = true /\ to_kebab_case Demo.E_fwd (cls_name Demo.E_fwd c) = t.
Proof.
  apply (extract_value_annotation_bindings Demo.E_fwd Demo.params_one Demo.va).
  vm_compute. reflexivity.
Defined.

(** X10 at [handler(value: UserFeedback, ...)]: the consumer subscribes to
    [user-feedback]. *)
Lemma consume_messages_subscribes_witness :
  exists evs,
    trace (snd (consume_messages Demo.E_fwd 1 Demo.params_one (Some (str_of "kafka:9092")) Demo.s0)) =
      trace Demo.s0 ++ EvConsumerStart :: EvSubscribe [str_of "user-feedback"] :: evs.
Proof.
  apply (consume_messages_subscribes Demo.E_fwd 1 Demo.params_one (str_of "kafka:9092")
           Demo.s0 Demo.va).
  vm_compute. reflexivity.
Defined.

(** X11 at [handler(value: UserFeedback, ...)] with [KAFKA_BROKERS=""]. *)
Lemma empty_brokers_consumer_without_producer_witness :
  exists evs,
    trace (snd (consume_messages Demo.E_fwd 1 Demo.params_one (Some []) Demo.s0)) =
      trace Demo.s0 ++ evs /\
    EvConsumerStart ∈ evs /\ EvNoBrokersWarning ∈ evs /\ EvProducerStart ∉ evs.
Proof.
  apply (empty_brokers_consumer_without_producer Demo.E_fwd 1 Demo.params_one Demo.s0 Demo.va).
  - vm_compute. reflexivity.
  - reflexivity.
Defined.

(** X13 at [rec1] with a handler that returns one message and then an
    object that is not a [KafkaMessage]. *)
Lemma non_message_after_sends_witness :
  exists sends,
    Forall2 (sent_ok Demo.E_other (r_topic Demo.rec1)) [Demo.msg2] sends /\
    trace (snd (loop_step Demo.E_other Demo.va Demo.rec1 Demo.s0)) =
      trace (snd (value_deserializer Demo.E_other (r_value Demo.rec1) 0%nat Demo.s0)) ++
      EvHandler (Some 2) (Some (str_of "test")) [] (r_topic Demo.rec1)
        :: sends ++ [EvError; EvSeek; EvSleep 5] /\
    pos (snd (loop_step Demo.E_other Demo.va Demo.rec1 Demo.s0)) = committed Demo.s0 /\
    committed (snd (loop_step Demo.E_other Demo.va Demo.rec1 Demo.s0)) = committed Demo.s0.
Proof.
  apply (non_message_after_sends Demo.E_other Demo.va Demo.rec1 Demo.s0 0%nat
           (Some (str_of "test")) (Some 2)
           (snd (value_deserializer Demo.E_other (r_value Demo.rec1) 0%nat Demo.s0))
           [] [Demo.msg2] []).
  - vm_compute. reflexivity.
  - vm_compute. reflexivity.
  - vm_compute. reflexivity.
  - vm_compute. reflexivity.
  - vm_compute. reflexivity.
  - constructor; [|constructor].
    exists (Some [x00; x00; x00; x00; x02; x01; x02]). split; reflexivity.
Defined.

(** X14 over two iterations from offset 0 of a one-record partition. *)
Lemma consume_loop_offsets_witness :
  log (snd (consume_loop Demo.E_fwd 2 Demo.va (Demo.st [Demo.rec1] 0 0))) = [Demo.rec1] /\
  (0 <= committed (snd (consume_loop Demo.E_fwd 2 Demo.va (Demo.st [Demo.rec1] 0 0))) <=
     pos (snd (consume_loop Demo.E_fwd 2 Demo.va (Demo.st [Demo.rec1] 0 0))))%nat /\
  (pos (snd (consume_loop Demo.E_fwd 2 Demo.va (Demo.st [Demo.rec1] 0 0))) <= 1)%nat.
Proof.
  apply (consume_loop_offsets Demo.E_fwd 2 Demo.va (Demo.st [Demo.rec1] 0 0)).
  simpl. lia.
Defined.

Example utf8_decode_ex1 : utf8_decode [x68; xc3; xa9] = Some [104; 233].
Proof. reflexivity. Qed.
Example utf8_decode_ex2 : utf8_decode [xff] = None.
Proof. reflexivity. Qed.

Example pack_ex : pack_bI 0 7 = Ok [x00; x00; x00; x00; x07].
Proof. reflexivity. Qed.
Example unpack_ex : unpack_I [x00; x00; x01; x02] = Ok 258.
Proof. reflexivity. Qed.

Example kebab_ex : Demo.kebab true (str_of "UserFeedback") = str_of "user-feedback".
Proof. reflexivity. Qed.

Example demo_run :
  trace (snd (loop_step (Demo.env (Demo.forward [])) Demo.va Demo.rec1 (Demo.st [Demo.rec1] 1 0)))
  = [EvHandler (Some 2) (Some [116; 101; 115; 116]) [] (str_of "user-feedback");
     EvSend (str_of "processed-feedback") (str_of "k")
       (Some [x00; x00; x00; x00; x02; x01; x02])
       [(str_of "processed_topic", str_of "user-feedback")];
     EvCommit].
Proof. vm_compute. reflexivity. Qed.
